(** * demo-app: the Lego pile catalog builder and the step simulation

    A shallow embedding of the two Python sources of the repository,

    - [src/preprocess/create_tailored_data.py] (module [Preprocess]), the
      pandas pipeline that explodes, joins, filters and samples the raw
      catalog, and
    - [src/app/main.py] (module [App]), the helper functions and workflow
      atoms of the simulation,

    together with the slice of Python, NumPy and pandas they rely on
    (modules [Py], [Numpy], [Float] and [Pandas]).

    Conventions of the embedding:
    - a Python [int] is a [Z]; a Python [float] is an IEEE 754 binary64
      value, a [spec_float] at precision 53 and maximal exponent 1024, and
      every float operation is the correctly rounded one of [SpecFloat];
    - a cell of an object column is an [option string], [None] being NaN;
    - a raised exception is the [Raise] result of an error monad;
    - the process-wide NumPy random state is threaded explicitly: a
      computation that draws random numbers takes the state and returns the
      state it leaves behind. *)

From Stdlib Require Import String Ascii List ZArith Bool Arith Lia.
From Stdlib Require Import QArith Qabs Lqa SpecFloat.
From Stdlib Require Import Sorted Permutation.
Import ListNotations.

Set Implicit Arguments.
Open Scope Z_scope.

(** ** Python: exceptions and the ambient random state *)

Module Py.

(** The exceptions the modelled code can raise, by the call that raises
    them. *)
Inductive exn : Type :=
| ValueError_negative_rows       (* DataFrame.sample: n < 0 *)
| ValueError_larger_sample       (* choice(replace=False): size > population *)
| ValueError_negative_repeat     (* np.repeat: negative count *)
| ValueError_low_ge_high         (* randint: empty range *)
| ValueError_int_of_nan          (* int(nan) *)
| OverflowError_int_to_float     (* float(int) beyond the binary64 range *)
| OverflowError_int_of_inf       (* int(inf) *)
| TypeError_str_concat           (* "#" + nan *)
| IndexError_out_of_bounds.      (* take / iloc beyond the frame *)

Inductive result (A : Type) : Type :=
| Ok (a : A)
| Raise (e : exn).
Arguments Ok {A} a.
Arguments Raise {A} e.

(** Pure fallible code: the error monad. *)
Definition bindR {A B} (r : result A) (k : A -> result B) : result B :=
  match r with
  | Ok a => k a
  | Raise e => Raise e
  end.

(** The state of [numpy.random]: an unbounded tape of raw draws and the
    position of the next one.  Nothing is assumed about the tape, so a
    statement over every [rng] holds for every outcome of the generator. *)
Record rng : Type := { tape : nat -> nat; cursor : nat }.

(** Code that uses the random state and may raise. *)
Definition M (A : Type) : Type := rng -> result (A * rng).

Definition ret {A} (a : A) : M A := fun g => Ok (a, g).

Definition throw {A} (e : exn) : M A := fun _ => Raise e.

Definition bind {A B} (m : M A) (k : A -> M B) : M B :=
  fun g =>
    match m g with
    | Ok (a, g') => k a g'
    | Raise e => Raise e
    end.

Definition lift {A} (r : result A) : M A :=
  fun g =>
    match r with
    | Ok a => Ok (a, g)
    | Raise e => Raise e
    end.

(** One raw draw: read the tape and advance. *)
Definition next : M nat :=
  fun g => Ok (tape g (cursor g), {| tape := tape g; cursor := S (cursor g) |}).

(** The value a computation returns, the final random state dropped. *)
Definition value {A} (r : result (A * rng)) : result A :=
  match r with
  | Ok (a, _) => Ok a
  | Raise e => Raise e
  end.

End Py.

Import Py.

Declare Scope py_scope.
Delimit Scope py_scope with py.
Notation "x <- m ;; k" := (Py.bind m (fun x => k))
  (at level 100, m at next level, right associativity) : py_scope.
Notation "x <-- r ;; k" := (Py.bindR r (fun x => k))
  (at level 100, r at next level, right associativity) : py_scope.
Open Scope py_scope.

(** ** NumPy: [randint], [choice] without replacement *)

Module Numpy.

(** [numpy.random.randint(low, high)]: an integer of the half-open range
    from [low] to [high]. *)
Definition randint (low high : Z) : M Z :=
  if high <=? low then throw ValueError_low_ge_high
  else r <- next ;; ret (low + Z.of_nat r mod (high - low)).

(** Removal of the element at a position. *)
Fixpoint remove_at {A} (i : nat) (l : list A) : list A :=
  match l, i with
  | [], _ => []
  | _ :: t, O => t
  | x :: t, S j => x :: remove_at j t
  end.

(** [k] successive draws from a pool, each drawn element leaving the
    pool: the first [k] entries of a random permutation. *)
Fixpoint draw (k : nat) (pool : list nat) : M (list nat) :=
  match k with
  | O => ret []
  | S k' =>
      match pool with
      | [] => throw ValueError_larger_sample
      | _ :: _ =>
          r <- next ;;
          let i := (r mod length pool)%nat in
          rest <- draw k' (remove_at i pool) ;;
          ret (nth i pool O :: rest)
      end
  end.

(** [RandomState.choice(pop, size, replace=False)]: [size] distinct
    positions below [pop], in the order drawn. *)
Definition choice (pop size : nat) : M (list nat) :=
  if (pop <? size)%nat then throw ValueError_larger_sample
  else draw size (seq 0 pop).

End Numpy.

(** ** Python floats: IEEE 754 binary64 *)

Module Float.

Definition prec : Z := 53.
Definition emax : Z := 1024.

Definition float : Type := spec_float.

Definition mul : float -> float -> float := SFmul prec emax.
Definition div : float -> float -> float := SFdiv prec emax.
Definition leb : float -> float -> bool := SFleb.

(** The integer [z] rounded to the nearest float, ties to even. *)
Definition round_int (z : Z) : float := binary_normalize prec emax z 0 false.

(** [float(z)], the conversion Python applies to the [int] operand of a
    mixed operation; an [int] beyond the range raises [OverflowError]. *)
Definition of_int (z : Z) : result float :=
  match round_int z with
  | S754_infinity _ => Raise OverflowError_int_to_float
  | f => Ok f
  end.

(** A decimal literal with two decimals, [n / 100]: the float nearest to
    it, which the correctly rounded quotient of the two exactly
    representable integers is. *)
Definition centi (n : Z) : float := div (round_int n) (round_int 100).

(** [int(x)]: truncation towards zero. *)
Definition to_int (x : float) : result Z :=
  match x with
  | S754_zero _ => Ok 0
  | S754_finite s m e =>
      let v := if 0 <=? e then Z.pos m * 2 ^ e else Z.pos m / 2 ^ (- e) in
      Ok (if s then - v else v)
  | S754_infinity _ => Raise OverflowError_int_of_inf
  | S754_nan => Raise ValueError_int_of_nan
  end.

End Float.

(** ** pandas: the frame operations the two scripts call *)

Module Pandas.

(** [DataFrame.take(locs)]: the rows at the given positions, in that
    order. *)
Fixpoint take {A} (df : list A) (locs : list nat) : result (list A) :=
  match locs with
  | [] => Ok []
  | i :: locs' =>
      match nth_error df i with
      | Some r => rest <-- take df locs' ;; Ok (r :: rest)
      | None => Raise IndexError_out_of_bounds
      end
  end.

(** [DataFrame.sample(n)]: [n] rows drawn uniformly without replacement;
    a negative [n] and an [n] above the number of rows raise
    [ValueError]. *)
Definition sample {A} (df : list A) (n : Z) : M (list A) :=
  if n <? 0 then throw ValueError_negative_rows
  else
    locs <- Numpy.choice (length df) (Z.to_nat n) ;;
    lift (take df locs).

(** [Series.dropna()]. *)
Definition dropna {A} (col : list (option A)) : list A :=
  flat_map (fun c => match c with Some v => [v] | None => [] end) col.

(** Counting one more occurrence of [k] in a table kept in order of first
    appearance. *)
Fixpoint incr (k : string) (acc : list (string * nat)) : list (string * nat) :=
  match acc with
  | [] => [(k, 1%nat)]
  | (k', c) :: t =>
      if String.eqb k k' then (k', S c) :: t else (k', c) :: incr k t
  end.

Definition tally (col : list string) : list (string * nat) :=
  fold_left (fun acc k => incr k acc) col [].

(** Insertion by decreasing count, before the entries that count no more. *)
Fixpoint insert_desc (x : string * nat) (l : list (string * nat))
  : list (string * nat) :=
  match l with
  | [] => [x]
  | y :: t =>
      if (snd y <=? snd x)%nat then x :: y :: t else y :: insert_desc x t
  end.

Definition sort_desc (l : list (string * nat)) : list (string * nat) :=
  fold_right insert_desc [] l.

(** [Series.value_counts()]: NaN cells are dropped ([dropna=True] is the
    default), the remaining values are counted, most frequent first.  The
    order pandas gives to values of equal count is not documented; here
    they stay in the order of their first appearance, and no statement
    below depends on it. *)
Definition value_counts (col : list (option string)) : list (string * nat) :=
  sort_desc (tally (dropna col)).

(** Substring test: [pat] occurs somewhere in [s]. *)
Fixpoint contains (pat s : string) : bool :=
  if String.prefix pat s then true
  else
    match s with
    | EmptyString => false
    | String _ t => contains pat t
    end.

(** [Series.str.contains(pat)] for a pattern without regular-expression
    metacharacters: a NaN cell gives NaN.  The column is an object column,
    as the category column of a frame is that is read from a file holding
    at least one category name, and of every sample of such a frame. *)
Definition str_contains (pat : string) (col : list (option string))
  : list (option bool) :=
  map (option_map (contains pat)) col.

(** [Series.sum()] of a boolean column: [True] counts 1, NaN is skipped. *)
Definition sum (col : list (option bool)) : Z :=
  fold_right
    (fun c acc => match c with Some true => 1 + acc | _ => acc end) 0 col.

(** Equality of two join keys; pandas matches a NaN key with a NaN key. *)
Definition key_eqb {K} (eqb : K -> K -> bool) (a b : option K) : bool :=
  match a, b with
  | Some x, Some y => eqb x y
  | None, None => true
  | _, _ => false
  end.

(** [left.merge(right, left_on=kl, right_on=kr, how="left")]: every left
    row in order, once per matching right row, and once with the right
    columns missing when no right row matches. *)
Definition merge_left {L R K} (eqb : K -> K -> bool)
    (kl : L -> option K) (kr : R -> option K)
    (left : list L) (right : list R) : list (L * option R) :=
  flat_map
    (fun l =>
       match filter (fun r => key_eqb eqb (kl l) (kr r)) right with
       | [] => [(l, None)]
       | matches => map (fun r => (l, Some r)) matches
       end)
    left.

(** Comparison of an object cell with a string: NaN equals nothing. *)
Definition cell_eqb (c : option string) (s : string) : bool :=
  match c with
  | Some v => String.eqb v s
  | None => false
  end.

Definition notna {A} (c : option A) : bool :=
  match c with Some _ => true | None => false end.

End Pandas.

(** ** The rows of the Lego pile *)

(** One row of [lego_pile.csv], the columns in the order of the file. *)
Record lego : Type := {
  img_url : option string;
  part_name : option string;
  part_cat_name : option string;
  color_name : option string;
  rgb : option string
}.

(** ** [src/preprocess/create_tailored_data.py] *)

Module Preprocess.
Import Pandas.

(** [inventory_parts_reduced.csv], restricted to the four columns read;
    [Q] is the type of the cells of the [quantity] column, which the
    script rewrites twice. *)
Record inventory_part (Q : Type) : Type := {
  ip_part_num : option string;
  ip_color_id : option Z;
  ip_quantity : Q;
  ip_img_url : option string
}.

(** [parts.csv], with [name] renamed to [part_name]. *)
Record part : Type := {
  p_part_num : option string;
  p_part_name : option string;
  p_part_cat_id : option Z
}.

(** [part_categories.csv], with [name] renamed to [part_cat_name]. *)
Record part_category : Type := {
  pc_id : option Z;
  pc_part_cat_name : option string
}.

(** [colors.csv], with [name] renamed to [color_name]. *)
Record color : Type := {
  c_id : option Z;
  c_color_name : option string;
  c_rgb : option string
}.

(** [np.repeat(1, q)]: an array of [q] ones; a negative [q] raises. *)
Definition np_repeat_1 (q : Z) : result (list Z) :=
  if q <? 0 then Raise ValueError_negative_repeat
  else Ok (repeat 1 (Z.to_nat q)).

(** [inventory_parts.quantity.apply(lambda q: np.repeat(1, q))], assigned
    back to the column. *)
Fixpoint apply_repeat (df : list (inventory_part Z))
  : result (list (inventory_part (list Z))) :=
  match df with
  | [] => Ok []
  | r :: df' =>
      cell <-- np_repeat_1 (ip_quantity r) ;;
      rest <-- apply_repeat df' ;;
      Ok ({| ip_part_num := ip_part_num r; ip_color_id := ip_color_id r;
             ip_quantity := cell; ip_img_url := ip_img_url r |} :: rest)
  end.

(** The rows [DataFrame.explode("quantity")] makes of one row: one per
    element of the cell, and for an empty cell one row holding NaN (the
    documented behaviour of [explode] on an empty list-like). *)
Definition explode_row (r : inventory_part (list Z))
  : list (inventory_part (option Z)) :=
  let with_cell (c : option Z) :=
    {| ip_part_num := ip_part_num r; ip_color_id := ip_color_id r;
       ip_quantity := c; ip_img_url := ip_img_url r |} in
  match ip_quantity r with
  | [] => [with_cell None]
  | cell => map (fun q => with_cell (Some q)) cell
  end.

Definition explode (df : list (inventory_part (list Z)))
  : list (inventory_part (option Z)) :=
  flat_map explode_row df.

(** A row of the exploded frame once [quantity] is dropped. *)
Record unit_piece : Type := {
  u_part_num : option string;
  u_color_id : option Z;
  u_img_url : option string
}.

Definition drop_quantity {Q} (r : inventory_part Q) : unit_piece :=
  {| u_part_num := ip_part_num r; u_color_id := ip_color_id r;
     u_img_url := ip_img_url r |}.

(** Lines 35 to 38: the explosion of [inventory_parts]. *)
Definition explode_inventory_parts (inventory_parts : list (inventory_part Z))
  : result (list unit_piece) :=
  repeated <-- apply_repeat inventory_parts ;;
  Ok (map drop_quantity (explode repeated)).

(** A column of the right frame after a left merge. *)
Definition right_col {R A} (col : R -> option A) (r : option R) : option A :=
  match r with
  | Some x => col x
  | None => None
  end.

(** Lines 42 to 58: the three left merges and the projection to the five
    columns kept. *)
Definition merge_tables (inventory_parts : list unit_piece)
    (parts : list part) (part_categories : list part_category)
    (colors : list color) : list lego :=
  let with_parts :=
    merge_left String.eqb u_part_num p_part_num inventory_parts parts in
  let with_categories :=
    merge_left Z.eqb (fun r => right_col p_part_cat_id (snd r)) pc_id
      with_parts part_categories in
  let with_colors :=
    merge_left Z.eqb (fun r => u_color_id (fst (fst r))) c_id
      with_categories colors in
  map
    (fun r =>
       let '(u, p, pc, c) := r in
       {| img_url := u_img_url u;
          part_name := right_col p_part_name p;
          part_cat_name := right_col pc_part_cat_name pc;
          color_name := right_col c_color_name c;
          rgb := right_col c_rgb c |})
    with_colors.

(** Lines 60 and 61: [lego_pile[~(lego_pile.part_cat_name == name)]]. *)
Definition remove_category (name : string) (lego_pile : list lego) : list lego :=
  filter (fun r => negb (cell_eqb (part_cat_name r) name)) lego_pile.

Definition remove_non_lego (lego_pile : list lego) : list lego :=
  remove_category "Stickers" (remove_category "Other" lego_pile).

(** The script up to the random sample. *)
Definition build_lego_pile (inventory_parts : list (inventory_part Z))
    (parts : list part) (part_categories : list part_category)
    (colors : list color) : result (list lego) :=
  pieces <-- explode_inventory_parts inventory_parts ;;
  Ok (remove_non_lego (merge_tables pieces parts part_categories colors)).

(** [main], its result the frame written to [lego_pile.csv]; the size of
    the final sample is a parameter, 800000 in the script. *)
Definition main_sampling (size : Z) (inventory_parts : list (inventory_part Z))
    (parts : list part) (part_categories : list part_category)
    (colors : list color) : M (list lego) :=
  lego_pile <- lift (build_lego_pile inventory_parts parts part_categories colors) ;;
  sample lego_pile size.


End Preprocess.

(** ** [src/app/main.py] *)

Module App.
Import Pandas.

(** *** Helper functions *)

(** Area of the foot in square centimetres, from the EU shoe size. *)
Definition get_area_of_foot (shoe_size : Z) : result Float.float :=
  size_minus_2 <-- Float.of_int (shoe_size - 2) ;;
  let foot_length :=
    Float.mul (Float.div (Float.round_int 2) (Float.round_int 3)) size_minus_2 in
  let foot_width := Float.mul (Float.centi 35) foot_length in
  Ok (Float.mul foot_length foot_width).

(** The estimate before the random offset: [int(num_legos_stepped_on)]. *)
Definition base_num_legos (shoe_size : Z) : result Z :=
  area_of_foot <-- get_area_of_foot shoe_size ;;
  let area_of_lego_block := Float.mul (Float.centi 234) (Float.centi 234) in
  let num_legos_per_foot := Float.div area_of_foot area_of_lego_block in
  let num_legos_stepped_on := Float.mul num_legos_per_foot (Float.round_int 2) in
  Float.to_int num_legos_stepped_on.

Definition get_num_legos_stepped_on (shoe_size : Z) : M Z :=
  base <- lift (base_num_legos shoe_size) ;;
  offset <- Numpy.randint (-10) 10 ;;
  ret (base + offset).

(** [DataFrame.drop_duplicates()]: the first occurrence of every row. *)
Definition drop_duplicates {A} (eqb : A -> A -> bool) (df : list A) : list A :=
  rev (fold_left
         (fun seen r => if existsb (eqb r) seen then seen else r :: seen)
         df []).

Definition cell_pair_eqb (a b : option string * option string) : bool :=
  key_eqb String.eqb (fst a) (fst b) && key_eqb String.eqb (snd a) (snd b).

(** The dictionary is given by its assignments, in the order the loop
    makes them; a later assignment to a key replaces an earlier one.
    ["#" + row["rgb"]] raises [TypeError] on a NaN cell. *)
Fixpoint color_assignments (colors : list (option string * option string))
  : result (list (option string * string)) :=
  match colors with
  | [] => Ok []
  | (name, Some hex) :: colors' =>
      rest <-- color_assignments colors' ;;
      Ok ((name, ("#" ++ hex)%string) :: rest)
  | (_, None) :: _ => Raise TypeError_str_concat
  end.

Definition get_lego_color_map (legos_stepped_on : list lego)
  : result (list (option string * string)) :=
  let colors :=
    drop_duplicates cell_pair_eqb
      (map (fun r => (color_name r, rgb r)) legos_stepped_on) in
  color_assignments colors.

(** What [px.treemap] is given: the table of counts and the colour map. *)
Record Figure : Type := {
  fig_data : list (string * nat);
  fig_color_discrete_map : list (option string * string)
}.

Definition visualize_lego_colors (legos_stepped_on : list lego) : result Figure :=
  color_map <-- get_lego_color_map legos_stepped_on ;;
  Ok {| fig_data := value_counts (map color_name legos_stepped_on);
        fig_color_discrete_map := color_map |}.

(** A row of the death roll: the columns [part_name] and [img_url]. *)
Record fallen : Type := {
  f_part_name : option string;
  f_img_url : option string
}.

Definition is_figure (name : option string) : bool :=
  cell_eqb name "Minifigs" || cell_eqb name "Minifig Heads"
  || cell_eqb name "Minidoll Heads".

Definition get_death_roll (legos_stepped_on : list lego) : list fallen :=
  map (fun r => {| f_part_name := part_name r; f_img_url := img_url r |})
    (filter (fun r => is_figure (part_cat_name r)) legos_stepped_on).

Definition calculate_damage (legos_stepped_on : list lego) : Z :=
  let base_damage := Z.of_nat (length legos_stepped_on) in
  let duplo_damage :=
    sum (str_contains "Duplo" (map part_cat_name legos_stepped_on)) in
  base_damage + duplo_damage.

(** *** Workflow atoms *)

(** What a trial shows and returns: the number in the headline and the
    frame handed to the dependent atoms. *)
Record step : Type := {
  announced : Z;
  legos_stepped_on : list lego
}.

Definition is_trophy (r : lego) : bool :=
  cell_eqb (part_cat_name r) "Minifig Heads" && notna (img_url r).

(** The atom returns [None] when the button was not clicked. *)
Definition get_legos_stepped_on (take_a_step : bool) (choose_shoe_size : Z)
    (dump_out_legos : list lego) : M (option step) :=
  if take_a_step then
    num_legos_stepped_on <- get_num_legos_stepped_on choose_shoe_size ;;
    legos <- sample dump_out_legos num_legos_stepped_on ;;
    token_minifig <- sample (filter is_trophy dump_out_legos) 1 ;;
    ret (Some {| announced := num_legos_stepped_on + 1;
                 legos_stepped_on := legos ++ token_minifig |})
  else ret None.

(** [DataFrame.dropna()] on the death roll: the rows without any NaN. *)
Definition dropna_rows (death_roll : list fallen) : list fallen :=
  filter (fun r => notna (f_part_name r) && notna (f_img_url r)) death_roll.

(** What [render_death_roll] shows: the number of figures and, when the
    cleaned death roll is not empty, its first row. *)
Record death_roll_view : Type := {
  vanquished : nat;
  featured_enemy : option fallen
}.

Definition render_death_roll (get_legos_stepped_on : list lego) : death_roll_view :=
  let minifigs_vanquished := get_death_roll get_legos_stepped_on in
  {| vanquished := length minifigs_vanquished;
     featured_enemy :=
       if (0 <? length (dropna_rows minifigs_vanquished))%nat
       then nth_error (dropna_rows minifigs_vanquished) 0
       else None |}.

Definition render_damage (get_legos_stepped_on : list lego) : Z :=
  calculate_damage get_legos_stepped_on.

End App.

(** * Vocabulary of the statements *)

Module Spec.
Import Pandas Preprocess.

(** [rows] are the rows of [df] at the positions [locs]. *)
Definition rows_at {A} (df : list A) (locs : list nat) (rows : list A) : Prop :=
  Forall2 (fun i r => nth_error df i = Some r) locs rows.

(** A draw without replacement from [df]: the rows at distinct positions
    of the frame. *)
Definition drawn_without_replacement {A} (df rows : list A) : Prop :=
  exists locs, NoDup locs /\ rows_at df locs rows.

(** [pat] is a substring of [s]. *)
Definition occurs_in (pat s : string) : Prop :=
  exists pre post, s = (pre ++ pat ++ post)%string.

(** The category name of the row contains "Duplo". *)
Definition names_duplo (r : lego) : bool :=
  match part_cat_name r with
  | Some name => contains "Duplo" name
  | None => false
  end.

(** The sum of a table of counts. *)
Definition total (counts : list (string * nat)) : nat :=
  fold_right (fun kc acc => (snd kc + acc)%nat) O counts.

(** The sum of the quantities of the inventory records. *)
Definition total_quantity (df : list (inventory_part Z)) : Z :=
  fold_right (fun r acc => ip_quantity r + acc) 0 df.

(** The foot model as the specification words it, in exact rational
    arithmetic. *)
Definition footLength (shoeSize : Q) : Q := (2 # 3) * (shoeSize - 2).
Definition footWidth (shoeSize : Q) : Q := (35 # 100) * footLength shoeSize.
Definition footArea (shoeSize : Q) : Q := footLength shoeSize * footWidth shoeSize.

(** The number of rows the explosion makes of the records: [q] for a
    record of quantity [q] at least 1, and 1 for a record of quantity 0. *)
Definition exploded_rows (df : list (inventory_part Z)) : Z :=
  fold_right (fun r acc => Z.max (ip_quantity r) 1 + acc) 0 df.

(** The row belongs to one of the two categories the script removes. *)
Definition excluded (r : lego) : Prop :=
  part_cat_name r = Some "Other"%string \/ part_cat_name r = Some "Stickers"%string.

(** The row has a part name and a category name. *)
Definition named (r : lego) : Prop :=
  part_name r <> None /\ part_cat_name r <> None.

(** The reference tables resolve every key of the inventory: every part
    number is the key of a part, every part has a name and a category that
    is the key of a category, and every category has a name. *)
Definition keys_resolve (inventory_parts : list (inventory_part Z))
    (parts : list part) (part_categories : list part_category) : Prop :=
  (forall r, In r inventory_parts ->
     exists p, In p parts /\
       key_eqb String.eqb (ip_part_num r) (p_part_num p) = true) /\
  (forall p, In p parts ->
     p_part_name p <> None /\
     exists pc, In pc part_categories /\
       key_eqb Z.eqb (p_part_cat_id p) (pc_id pc) = true) /\
  (forall pc, In pc part_categories -> pc_part_cat_name pc <> None).

(** The number of cells of a column equal to [k]. *)
Definition occurrences (k : string) (col : list string) : nat :=
  length (filter (String.eqb k) col).

(** The count a table of counts records for [k], all its entries for [k]
    taken together. *)
Definition count_for (k : string) (counts : list (string * nat)) : nat :=
  fold_right
    (fun kc acc => if String.eqb k (fst kc) then (snd kc + acc)%nat else acc)
    O counts.

(** The first row of a death roll that has an image. *)
Definition first_with_image (death_roll : list App.fallen) : option App.fallen :=
  find (fun r => notna (App.f_img_url r)) death_roll.

(** The value of a finite float, as a rational. *)
Definition exact (x : Float.float) : Q :=
  match x with
  | S754_finite s m e =>
      let v := (inject_Z (Z.pos m) * Qpower 2 e)%Q in
      if s then Qopp v else v
  | _ => 0%Q
  end.

(** [x] approximates [q] with a relative error of at most 2^-50. *)
Definition close_to (x : Float.float) (q : Q) : bool :=
  Qle_bool (Qabs (exact x - q) * Qpower 2 50) (Qabs q).

(** The integers from [lo], [n] of them. *)
Definition range (lo : Z) (n : nat) : list Z :=
  map (fun i => lo + Z.of_nat i) (seq 0 n).

End Spec.

(** * Sample data *)

Module Examples.
Import Preprocess.
Local Open Scope string_scope.

(** A random state whose raw draws are the given ones, then zeros. *)
Definition rng_of (draws : list nat) : rng :=
  {| tape := fun i => nth i draws O; cursor := O |}.

Definition brick : lego :=
  {| img_url := Some "https://cdn.rebrickable.com/media/parts/ldraw/4/3001.png";
     part_name := Some "Brick 2 x 4"; part_cat_name := Some "Bricks";
     color_name := Some "Red"; rgb := Some "C91A09" |}.

Definition duplo_brick : lego :=
  {| img_url := None;
     part_name := Some "Duplo Brick 2 x 2"; part_cat_name := Some "Duplo Bricks";
     color_name := Some "Blue"; rgb := Some "0055BF" |}.

Definition head : lego :=
  {| img_url := Some "https://cdn.rebrickable.com/media/parts/ldraw/14/3626bp01.png";
     part_name := Some "Minifig Head Standard Grin";
     part_cat_name := Some "Minifig Heads";
     color_name := Some "Yellow"; rgb := Some "F2CD37" |}.

Definition plate : lego :=
  {| img_url := None;
     part_name := Some "Plate 1 x 2"; part_cat_name := Some "Plates";
     color_name := Some "Black"; rgb := Some "05131D" |}.

(** A head whose image is missing: not eligible as the trophy. *)
Definition faceless_head : lego :=
  {| img_url := None;
     part_name := Some "Minifig Head Plain"; part_cat_name := Some "Minifig Heads";
     color_name := Some "Yellow"; rgb := Some "F2CD37" |}.

(** A working dataset of five rows. *)
Definition pile5 : list lego := [brick; duplo_brick; head; plate; faceless_head].

(** A working dataset large enough for every selectable shoe size. *)
Definition pile200 : list lego := (repeat brick 199 ++ [head])%list.

(** Inventory records: three red bricks, one yellow head, and a record of
    quantity 0. *)
Definition three_bricks : inventory_part Z :=
  {| ip_part_num := Some "3001"; ip_color_id := Some 4; ip_quantity := 3;
     ip_img_url := Some "https://cdn.rebrickable.com/media/parts/ldraw/4/3001.png" |}.

Definition one_head : inventory_part Z :=
  {| ip_part_num := Some "3626bp01"; ip_color_id := Some 14; ip_quantity := 1;
     ip_img_url := None |}.

Definition no_plate : inventory_part Z :=
  {| ip_part_num := Some "3023"; ip_color_id := Some 0; ip_quantity := 0;
     ip_img_url := None |}.

(** A working dataset without an eligible trophy: its only head has no
    image. *)
Definition pile_without_trophy : list lego := [brick; plate; faceless_head].

(** The shoe sizes the select box offers: [range(30, 50)]. *)
Definition selectable_sizes : list Z := map Z.of_nat (seq 30 20).

Definition one_sticker : inventory_part Z :=
  {| ip_part_num := Some "3001pr0001stk"; ip_color_id := Some 9999; ip_quantity := 1;
     ip_img_url := None |}.

Definition one_string : inventory_part Z :=
  {| ip_part_num := Some "x77"; ip_color_id := Some 0; ip_quantity := 1;
     ip_img_url := None |}.

(** Reference tables for those records. *)
Definition parts_table : list part :=
  [ {| p_part_num := Some "3001"; p_part_name := Some "Brick 2 x 4";
       p_part_cat_id := Some 11 |};
    {| p_part_num := Some "3626bp01"; p_part_name := Some "Minifig Head Standard Grin";
       p_part_cat_id := Some 59 |};
    {| p_part_num := Some "3001pr0001stk"; p_part_name := Some "Sticker Sheet";
       p_part_cat_id := Some 58 |};
    {| p_part_num := Some "x77"; p_part_name := Some "String";
       p_part_cat_id := Some 24 |};
    {| p_part_num := Some "3023"; p_part_name := Some "Plate 1 x 2";
       p_part_cat_id := Some 14 |} ].

Definition categories_table : list part_category :=
  [ {| pc_id := Some 11; pc_part_cat_name := Some "Bricks" |};
    {| pc_id := Some 14; pc_part_cat_name := Some "Plates" |};
    {| pc_id := Some 24; pc_part_cat_name := Some "Other" |};
    {| pc_id := Some 58; pc_part_cat_name := Some "Stickers" |};
    {| pc_id := Some 59; pc_part_cat_name := Some "Minifig Heads" |} ].

Definition colors_table : list color :=
  [ {| c_id := Some 0; c_color_name := Some "Black"; c_rgb := Some "05131D" |};
    {| c_id := Some 4; c_color_name := Some "Red"; c_rgb := Some "C91A09" |};
    {| c_id := Some 14; c_color_name := Some "Yellow"; c_rgb := Some "F2CD37" |} ].

Definition inventory : list (inventory_part Z) :=
  [three_bricks; one_sticker; one_head; one_string].

(** A row none of whose columns is known. *)
Definition blank : lego :=
  {| img_url := None; part_name := None; part_cat_name := None;
     color_name := None; rgb := None |}.

(** A head with an image whose part has no name. *)
Definition nameless_head : lego :=
  {| img_url := Some "https://cdn.rebrickable.com/media/parts/ldraw/14/3626b.png";
     part_name := None; part_cat_name := Some "Minifig Heads";
     color_name := Some "Yellow"; rgb := Some "F2CD37" |}.

(** A head whose colour has a code and no name. *)
Definition uncoloured_head : lego :=
  {| img_url := Some "https://cdn.rebrickable.com/media/parts/ldraw/14/3626bp01.png";
     part_name := Some "Minifig Head Standard Grin";
     part_cat_name := Some "Minifig Heads";
     color_name := None; rgb := Some "F2CD37" |}.

End Examples.

(** * Values of binary64 floats

    The vocabulary of the rounding argument.  A float that is not negative
    is measured in units of 2^-1074, the least positive float, so that its
    value is a non-negative integer; the exact product of two such values
    is then an integer in units of 2^-2148. *)

Module Rounding.
Import Float.

Definition fexp : Z -> Z := SpecFloat.fexp prec emax.

(** The state of the shift register after [k] right shifts of [M]: the
    quotient, the bit shifted out last, and whether a bit shifted out
    before it was set. *)
Definition shifted (M k : Z) (st : shr_record) : Prop :=
  shr_m st = M / 2 ^ k /\
  (shr_r st = true <-> 2 ^ k <= 2 * (M mod 2 ^ k)) /\
  (shr_s st = true <-> M mod 2 ^ k <> 0 /\ 2 * (M mod 2 ^ k) <> 2 ^ k).

(** [M / 2^k] rounded to the nearest integer, a tie to the even one. *)
Definition round_at (M k : Z) : Z :=
  let q := M / 2 ^ k in
  let rem := M mod 2 ^ k in
  if (2 ^ k <? 2 * rem) || ((2 * rem =? 2 ^ k) && Z.odd q) then q + 1 else q.

(** Infinity, above the value of every finite float. *)
Definition INF : Z := 2 ^ 2200.

(** The value of a float in units of 2^-1074. *)
Definition val2 (x : spec_float) : Z :=
  match x with
  | S754_zero _ => 0
  | S754_finite _ m e => Z.pos m * 2 ^ (e + 1074)
  | S754_infinity _ => INF
  | S754_nan => -1
  end.

(** The floats the foot model meets: zero, the positive floats in
    canonical form, and positive infinity. *)
Definition good (x : spec_float) : Prop :=
  match x with
  | S754_zero false => True
  | S754_finite false m e => bounded prec emax m e = true
  | S754_infinity false => True
  | _ => False
  end.

(** Overflow: from 2^1024 on, which is 2^2098 units, the value is
    infinite. *)
Definition clip (w : Z) : Z := if 2 ^ 2098 <=? w then INF else w.

(** The number of low bits the rounding of [V], in units of 2^-2148,
    drops: what exceeds 53 bits, and at least the 1074 bits below the
    least positive float. *)
Definition shift_of (V : Z) : Z := Z.max (Z.log2 V + 1 - 53) 1074.

Definition unclipped (V : Z) : Z :=
  round_at V (shift_of V) * 2 ^ (shift_of V - 1074).

(** The float nearest to [V] units of 2^-2148, in units of 2^-1074. *)
Definition rnd (V : Z) : Z := clip (unclipped V).

(** The value of a float product from the values of its factors. *)
Definition mulv (a b : Z) : Z :=
  if (a =? 0) || (b =? 0) then 0
  else if (a =? INF) || (b =? INF) then INF
  else rnd (a * b).

(** The value of [get_area_of_foot] at the shoe size [z + 2], following
    the function operation by operation. *)
Definition two_thirds : float := div (round_int 2) (round_int 3).

Definition area_val (z : Z) : Z :=
  let size_minus_2 := rnd (z * 2 ^ 2148) in
  let foot_length := mulv (val2 two_thirds) size_minus_2 in
  let foot_width := mulv (val2 (centi 35)) foot_length in
  mulv foot_length foot_width.

(** The largest integer Python converts to a float. *)
Definition max_int : Z := 2 ^ 1024 - 2 ^ 970 - 1.

End Rounding.

(** * Further vocabulary

    The words of the statements about the rest of the two programs. *)

Module Vocabulary.
Import Pandas Preprocess App.


(** The row of the death roll a stepped-on row gives. *)
Definition fallen_of (r : lego) : fallen :=
  {| f_part_name := part_name r; f_img_url := img_url r |}.

(** The category of the row is one of the three figure categories. *)
Definition figure (r : lego) : Prop :=
  part_cat_name r = Some "Minifigs"%string \/
  part_cat_name r = Some "Minifig Heads"%string \/
  part_cat_name r = Some "Minidoll Heads"%string.

(** The row of the death roll has a part name and an image. *)
Definition complete (f : fallen) : Prop :=
  f_part_name f <> None /\ f_img_url f <> None.

(** The counts of a table do not increase along it. *)
Definition descending (counts : list (string * nat)) : Prop :=
  Sorted (fun a b => (snd b <= snd a)%nat) counts.

(** The entry of the colour map a row asks for: its colour name, bound to
    its colour code behind a hash sign. *)
Definition color_entry (r : lego) (entry : option string * string) : Prop :=
  exists hex, rgb r = Some hex /\ entry = (color_name r, ("#" ++ hex)%string).

(** The unit pieces of one inventory record: as many copies of the record
    without its quantity as the quantity says, and one for a quantity 0. *)
Definition pieces_of (r : inventory_part Z) : list unit_piece :=
  repeat (drop_quantity r) (Z.to_nat (Z.max (ip_quantity r) 1)).


End Vocabulary.

Module MoreExamples.
Import Preprocess Examples.
Local Open Scope string_scope.

(** A head record that comes with an image. *)
Definition pictured_head : inventory_part Z :=
  {| ip_part_num := Some "3626bp01"; ip_color_id := Some 14; ip_quantity := 1;
     ip_img_url := Some "https://cdn.rebrickable.com/media/parts/ldraw/14/3626bp01.png" |}.

(** An inventory whose pile holds an eligible trophy. *)
Definition inventory_with_head : list (inventory_part Z) :=
  [three_bricks; one_sticker; pictured_head].

End MoreExamples.

(** * Properties *)

Unset Implicit Arguments.

(** ** Sampling without replacement *)

Module SamplingFacts.
Import Numpy Pandas Spec.

Lemma remove_at_length {A} (l : list A) : forall i,
  (i < length l)%nat -> length (remove_at i l) = pred (length l).
Proof.
  induction l as [|x t IH]; intros i Hi; simpl in *; [lia|].
  destruct i as [|j]; [reflexivity|].
  simpl. rewrite IH by lia. destruct t; simpl in *; lia.
Qed.

Lemma remove_at_In {A} (l : list A) : forall i y,
  In y (remove_at i l) -> In y l.
Proof.
  induction l as [|x t IH]; intros i y Hy;
    [destruct i; simpl in Hy; contradiction|].
  destruct i as [|j]; simpl in *; [now right|].
  destruct Hy as [Hy|Hy]; [now left | right; eauto].
Qed.

Lemma remove_at_NoDup {A} (d : A) (l : list A) : forall i,
  (i < length l)%nat -> NoDup l ->
  NoDup (remove_at i l) /\ ~ In (nth i l d) (remove_at i l).
Proof.
  induction l as [|x t IH]; intros i Hi Hnd; simpl in *; [lia|].
  inversion Hnd as [|? ? Hx Ht]; subst.
  destruct i as [|j]; [now split|].
  destruct (IH j ltac:(lia) Ht) as [Hnd' Hnot].
  split.
  - constructor; [|assumption].
    intro Hin. apply Hx. eapply remove_at_In; eassumption.
  - simpl. intros [Heq|Hin]; [|contradiction].
    apply Hx. rewrite Heq. apply nth_In. lia.
Qed.

(** The positions drawn are distinct members of the pool, as many as
    asked for. *)
Lemma draw_ok : forall k pool g,
  (k <= length pool)%nat -> NoDup pool ->
  exists locs g',
    draw k pool g = Ok (locs, g') /\ length locs = k /\ NoDup locs /\
    incl locs pool.
Proof.
  induction k as [|k IH]; intros pool g Hk Hnd.
  - exists [], g. repeat split; [constructor | intros x []].
  - destruct pool as [|p pool']; [simpl in Hk; lia|].
    set (pool := p :: pool') in *.
    assert (Hpos : (0 < length pool)%nat) by (subst pool; simpl; lia).
    set (g1 := {| tape := tape g; cursor := S (cursor g) |}).
    set (i := (tape g (cursor g) mod length pool)%nat).
    assert (Hi : (i < length pool)%nat) by (apply Nat.mod_upper_bound; lia).
    destruct (remove_at_NoDup O pool i Hi Hnd) as [Hnd' Hfresh].
    destruct (IH (remove_at i pool) g1) as (locs & g' & Hdraw & Hlen & Hnd'' & Hincl);
      [rewrite remove_at_length by assumption; lia | assumption |].
    exists (nth i pool O :: locs), g'.
    split; [|split; [|split]].
    + change (draw (S k) pool g) with
        (bind next (fun r =>
           let i := (r mod length pool)%nat in
           bind (draw k (remove_at i pool))
                (fun rest => ret (nth i pool O :: rest))) g).
      unfold bind at 1, next. fold g1. cbv zeta. fold i.
      unfold bind. rewrite Hdraw. reflexivity.
    + simpl. now rewrite Hlen.
    + constructor; [|assumption].
      intro Hin. apply Hfresh. now apply Hincl.
    + intros x [Hx|Hx]; [subst x; apply nth_In; assumption|].
      eapply remove_at_In. apply Hincl. exact Hx.
Qed.

Lemma draw_short : forall k pool g,
  (length pool < k)%nat -> draw k pool g = Raise ValueError_larger_sample.
Proof.
  induction k as [|k IH]; intros pool g Hk; [lia|].
  destruct pool as [|p pool']; [reflexivity|].
  set (pool := p :: pool') in *.
  assert (Hi : (tape g (cursor g) mod length pool < length pool)%nat)
    by (apply Nat.mod_upper_bound; subst pool; simpl; lia).
  change (draw (S k) pool g) with
    (bind next (fun r =>
       let i := (r mod length pool)%nat in
       bind (draw k (remove_at i pool))
            (fun rest => ret (nth i pool O :: rest))) g).
  unfold bind at 1, next. cbv zeta. unfold bind.
  rewrite IH; [reflexivity|].
  rewrite remove_at_length by assumption. subst pool. simpl in *. lia.
Qed.

Lemma choice_ok : forall pop size g,
  (size <= pop)%nat ->
  exists locs g',
    choice pop size g = Ok (locs, g') /\ length locs = size /\ NoDup locs /\
    Forall (fun i => (i < pop)%nat) locs.
Proof.
  intros pop size g Hle. unfold choice.
  destruct (Nat.ltb_spec pop size) as [Hlt|_]; [lia|].
  destruct (draw_ok size (seq 0 pop) g) as (locs & g' & Hd & Hlen & Hnd & Hincl);
    [rewrite length_seq; lia | apply seq_NoDup |].
  exists locs, g'. repeat split; try assumption.
  apply Forall_forall. intros i Hi. apply Hincl, in_seq in Hi. lia.
Qed.

Lemma choice_too_many : forall pop size g,
  (pop < size)%nat -> choice pop size g = Raise ValueError_larger_sample.
Proof.
  intros pop size g Hlt. unfold choice.
  destruct (Nat.ltb_spec pop size) as [_|Hge]; [reflexivity | lia].
Qed.

Lemma take_ok {A} (df : list A) : forall locs,
  Forall (fun i => (i < length df)%nat) locs ->
  exists rows, take df locs = Ok rows /\ rows_at df locs rows.
Proof.
  induction locs as [|i locs IH]; intros Hall.
  - exists []. split; [reflexivity | constructor].
  - inversion Hall as [|? ? Hi Hrest]; subst.
    destruct (IH Hrest) as (rows & Htake & Hrows).
    destruct (nth_error df i) as [r|] eqn:Hnth;
      [|apply nth_error_None in Hnth; lia].
    exists (r :: rows). split.
    + simpl. rewrite Hnth, Htake. reflexivity.
    + constructor; assumption.
Qed.

Lemma drawn_In {A} (df rows : list A) :
  drawn_without_replacement df rows -> incl rows df.
Proof.
  intros (locs & _ & Hrows) r Hr.
  induction Hrows as [|i r' locs' rows' Hnth _ IH]; [contradiction|].
  destruct Hr as [<-|Hr]; [eapply nth_error_In; eassumption | now apply IH].
Qed.

(** [sample] succeeds exactly on a size between 0 and the number of rows,
    and then returns that many rows drawn without replacement. *)
Lemma sample_ok {A} (df : list A) (n : Z) (g : rng) :
  0 <= n <= Z.of_nat (length df) ->
  exists rows g',
    sample df n g = Ok (rows, g') /\ Z.of_nat (length rows) = n /\
    drawn_without_replacement df rows.
Proof.
  intros [Hlo Hhi]. unfold sample.
  destruct (Z.ltb_spec n 0) as [Hneg|_]; [lia|].
  destruct (choice_ok (length df) (Z.to_nat n) g) as (locs & g' & Hc & Hlen & Hnd & Hall);
    [lia|].
  destruct (take_ok df locs Hall) as (rows & Htake & Hrows).
  exists rows, g'. unfold bind, lift. rewrite Hc, Htake.
  split; [reflexivity|]. split.
  - rewrite <- (Forall2_length Hrows), Hlen. lia.
  - exists locs. split; assumption.
Qed.

Lemma sample_negative {A} (df : list A) (n : Z) (g : rng) :
  n < 0 -> sample df n g = Raise ValueError_negative_rows.
Proof.
  intros Hneg. unfold sample.
  destruct (Z.ltb_spec n 0) as [_|Hge]; [reflexivity | lia].
Qed.

Lemma sample_too_many {A} (df : list A) (n : Z) (g : rng) :
  Z.of_nat (length df) < n -> sample df n g = Raise ValueError_larger_sample.
Proof.
  intros Hbig. unfold sample.
  destruct (Z.ltb_spec n 0) as [Hneg|_]; [lia|].
  unfold bind. rewrite choice_too_many by lia. reflexivity.
Qed.

(** The three cases together: what a successful [sample] tells. *)
Lemma sample_inv {A} (df : list A) (n : Z) (g g' : rng) (rows : list A) :
  sample df n g = Ok (rows, g') ->
  0 <= n <= Z.of_nat (length df) /\ Z.of_nat (length rows) = n /\
  drawn_without_replacement df rows.
Proof.
  intros Hs.
  destruct (Z.lt_ge_cases n 0) as [Hneg|Hge];
    [rewrite sample_negative in Hs by assumption; discriminate|].
  destruct (Z.lt_ge_cases (Z.of_nat (length df)) n) as [Hbig|Hle];
    [rewrite sample_too_many in Hs by assumption; discriminate|].
  destruct (sample_ok df n g ltac:(lia)) as (rows' & g'' & Hs' & Hlen & Hdr).
  rewrite Hs' in Hs. injection Hs as -> ->. repeat split; assumption || lia.
Qed.

End SamplingFacts.

(** ** Running a sequence of effectful calls *)

Module MonadFacts.

Lemma bind_ok {A B} (m : M A) (k : A -> M B) (g g' : rng) (b : B) :
  bind m k g = Ok (b, g') ->
  exists a g1, m g = Ok (a, g1) /\ k a g1 = Ok (b, g').
Proof.
  unfold bind. destruct (m g) as [[a g1]|e]; [|discriminate].
  intros H. exists a, g1. split; [reflexivity | exact H].
Qed.

Lemma bind_raise {A B} (m : M A) (k : A -> M B) (g : rng) (e : exn) :
  m g = Raise e -> bind m k g = Raise e.
Proof. unfold bind. intros ->. reflexivity. Qed.

Lemma bind_step {A B} (m : M A) (k : A -> M B) (g g1 : rng) (a : A) :
  m g = Ok (a, g1) -> bind m k g = k a g1.
Proof. unfold bind. intros ->. reflexivity. Qed.

Lemma lift_ok {A} (r : result A) (g g' : rng) (a : A) :
  lift r g = Ok (a, g') -> r = Ok a /\ g' = g.
Proof.
  unfold lift. destruct r as [a'|e]; [|discriminate].
  intros H. injection H as -> ->. split; reflexivity.
Qed.

Lemma ret_ok {A} (a b : A) (g g' : rng) :
  ret a g = Ok (b, g') -> b = a /\ g' = g.
Proof. unfold ret. intros H. injection H as -> ->. split; reflexivity. Qed.

End MonadFacts.

(** ** The trial: [get_legos_stepped_on] *)

Module StepFacts.
Import Pandas App Spec SamplingFacts MonadFacts Examples.

(** A list of length one. *)
Lemma length_one {A} (l : list A) :
  Z.of_nat (length l) = 1 -> exists x, l = [x].
Proof.
  destruct l as [|x [|y t]]; simpl; intros H; try lia.
  exists x. reflexivity.
Qed.

(** The trophy drawn is an eligible row of the frame. *)
Lemma trophy_eligible (df : list lego) (r : lego) :
  In r (filter is_trophy df) ->
  In r df /\ part_cat_name r = Some "Minifig Heads"%string /\ img_url r <> None.
Proof.
  intros Hin. apply filter_In in Hin. destruct Hin as [Hdf Htr].
  unfold is_trophy in Htr. apply andb_true_iff in Htr. destruct Htr as [Hcat Himg].
  split; [assumption|]. split.
  - unfold cell_eqb in Hcat. destruct (part_cat_name r) as [c|]; [|discriminate].
    apply String.eqb_eq in Hcat. now subst c.
  - destruct (img_url r); [discriminate | discriminate Himg].
Qed.

(** C1. A successful trial draws [n] base rows without replacement from
    the working dataset, [n] being the estimated piece count, draws one
    trophy row among the rows whose category is "Minifig Heads" and whose
    image is present, and returns the base rows followed by the trophy:
    [n + 1] rows, announced as [n + 1]. *)
Theorem step_on_base_plus_trophy :
  forall (shoe_size : Z) (working : list lego) (g g' : rng) (s : step),
    get_legos_stepped_on true shoe_size working g = Ok (Some s, g') ->
    exists (n : Z) (g1 : rng) (base : list lego) (trophy : lego),
      get_num_legos_stepped_on shoe_size g = Ok (n, g1) /\
      Z.of_nat (length base) = n /\
      drawn_without_replacement working base /\
      In trophy working /\
      part_cat_name trophy = Some "Minifig Heads"%string /\
      img_url trophy <> None /\
      legos_stepped_on s = base ++ [trophy] /\
      Z.of_nat (length (legos_stepped_on s)) = n + 1 /\
      announced s = n + 1.
Proof.
  intros shoe_size working g g' s Hrun.
  unfold get_legos_stepped_on in Hrun.
  apply bind_ok in Hrun. destruct Hrun as (n & g1 & Hnum & Hrun).
  apply bind_ok in Hrun. destruct Hrun as (base & g2 & Hbase & Hrun).
  apply bind_ok in Hrun. destruct Hrun as (token & g3 & Htoken & Hret).
  apply ret_ok in Hret. destruct Hret as [Hs _].
  apply sample_inv in Hbase. destruct Hbase as (_ & Hlen & Hdrawn).
  apply sample_inv in Htoken. destruct Htoken as (_ & Hone & Htdrawn).
  destruct (length_one token Hone) as [trophy ->].
  assert (Hin : In trophy (filter is_trophy working))
    by (apply (drawn_In _ _ Htdrawn); now left).
  destruct (trophy_eligible working trophy Hin) as (Hw & Hcat & Himg).
  injection Hs as Hs. subst s. simpl.
  exists n, g1, base, trophy.
  repeat split; try assumption.
  rewrite length_app. simpl. lia.
Qed.

(** The example of the specification: five rows, [n = 3], one trophy. *)
Example step_on_five_rows :
  value (get_legos_stepped_on true 2 pile5 (rng_of [13; 4; 0; 2; 5]%nat))
  = Ok (Some {| announced := 4;
                legos_stepped_on := [faceless_head; brick; plate; head] |}).
Proof. vm_compute. reflexivity. Qed.

(** The theorem at that trial. *)
Lemma step_on_base_plus_trophy_witness :
  exists (n : Z) (g1 : rng) (base : list lego) (trophy : lego),
    get_num_legos_stepped_on 2 (rng_of [13; 4; 0; 2; 5]%nat) = Ok (n, g1) /\
    Z.of_nat (length base) = n /\
    drawn_without_replacement pile5 base /\
    In trophy pile5 /\
    part_cat_name trophy = Some "Minifig Heads"%string /\
    img_url trophy <> None /\
    [faceless_head; brick; plate; head] = base ++ [trophy] /\
    Z.of_nat (length [faceless_head; brick; plate; head]) = n + 1 /\
    4 = n + 1.
Proof.
  eapply (step_on_base_plus_trophy 2 pile5 (rng_of [13; 4; 0; 2; 5]%nat) _
            {| announced := 4;
               legos_stepped_on := [faceless_head; brick; plate; head] |}).
  lazy. reflexivity.
Defined.

(** A trial at shoe size 42 on a pile of 200 rows: 87 base rows and the
    trophy. *)
Example step_on_size_42 :
  value (bind (get_legos_stepped_on true 42 pile200)
           (fun o => ret (option_map
              (fun s => (announced s, length (legos_stepped_on s),
                         last (legos_stepped_on s) brick)) o))
           (rng_of [7; 3; 150; 9]%nat))
  = Ok (Some (88, 88%nat, head)).
Proof. vm_compute. reflexivity. Qed.

End StepFacts.

(** ** The damage score: [calculate_damage] *)

Module DamageFacts.
Import Pandas App Spec Examples.

Lemma prefix_app (pat : string) : forall s,
  String.prefix pat s = true <-> exists post, s = (pat ++ post)%string.
Proof.
  induction pat as [|a pat IH]; intros s.
  - split; [intros _; exists s; reflexivity | intros _; destruct s; reflexivity].
  - destruct s as [|b s]; simpl.
    + split; [discriminate | intros [post H]; discriminate H].
    + destruct (Ascii.ascii_dec a b) as [->|Hne].
      * rewrite IH. split; intros [post H]; exists post.
        -- now rewrite H.
        -- now injection H.
      * split; [discriminate|].
        intros [post H]. injection H as Hab _. now elim Hne.
Qed.

(** [contains] decides the substring relation. *)
Lemma contains_occurs_in (pat : string) : forall s,
  contains pat s = true <-> occurs_in pat s.
Proof.
  intros s. split.
  - induction s as [|c s IH]; cbn [contains].
    + destruct (String.prefix pat "") eqn:Hp; [|intros H; discriminate H].
      intros _. apply prefix_app in Hp. destruct Hp as [post Hp].
      exists ""%string, post. exact Hp.
    + destruct (String.prefix pat (String c s)) eqn:Hp.
      * intros _. apply prefix_app in Hp. destruct Hp as [post Hp].
        exists ""%string, post. exact Hp.
      * intros Hc. destruct (IH Hc) as (pre & post & Hs).
        exists (String c pre), post. simpl. now rewrite Hs.
  - intros (pre & post & Hs). revert s Hs.
    induction pre as [|c pre IH]; intros s Hs.
    + assert (Hp : String.prefix pat s = true)
        by (apply prefix_app; exists post; exact Hs).
      destruct s; cbn [contains]; now rewrite Hp.
    + subst s. cbn [append contains].
      destruct (String.prefix pat (String c (pre ++ pat ++ post))); [reflexivity|].
      now apply IH.
Qed.

Lemma names_duplo_spec (r : lego) :
  names_duplo r = true <->
  exists name, part_cat_name r = Some name /\ occurs_in "Duplo" name.
Proof.
  unfold names_duplo. destruct (part_cat_name r) as [name|].
  - rewrite contains_occurs_in. split.
    + intros H. exists name. now split.
    + intros (name' & Heq & H). injection Heq as ->. exact H.
  - split; [discriminate | intros (name & Heq & _); discriminate Heq].
Qed.

(** The sum of the [str.contains] column counts the rows naming Duplo. *)
Lemma duplo_damage_count (l : list lego) :
  sum (str_contains "Duplo" (map part_cat_name l))
  = Z.of_nat (length (filter names_duplo l)).
Proof.
  induction l as [|r l IH]; [reflexivity|].
  unfold str_contains in *. cbn [map sum fold_right filter].
  unfold sum in IH. unfold names_duplo at 1.
  destruct (part_cat_name r) as [name|]; cbn [option_map].
  - destruct (contains "Duplo" name); cbn [length]; rewrite IH; lia.
  - exact IH.
Qed.

Lemma filter_all_false {A} (f : A -> bool) (l : list A) :
  length (filter f l) = O <-> forall x, In x l -> f x = false.
Proof.
  induction l as [|x l IH]; simpl.
  - split; [intros _ y [] | reflexivity].
  - destruct (f x) eqn:Hfx; simpl.
    + split; [discriminate|].
      intros H. specialize (H x (or_introl eq_refl)). congruence.
    + rewrite IH. split.
      * intros H y [<-|Hy]; [assumption | now apply H].
      * intros H y Hy. apply H. now right.
Qed.

(** C2. The damage is the number of rows plus the number of rows whose
    category name contains "Duplo" as a substring, upper and lower case
    distinguished; so it is at least the number of rows, and equal to it
    exactly when no category name contains "Duplo". *)
Theorem damage_rows_plus_duplo :
  forall result : list lego,
    calculate_damage result
    = Z.of_nat (length result) + Z.of_nat (length (filter names_duplo result)) /\
    (forall r, names_duplo r = true <->
       exists name, part_cat_name r = Some name /\ occurs_in "Duplo" name) /\
    Z.of_nat (length result) <= calculate_damage result /\
    (calculate_damage result = Z.of_nat (length result) <->
     forall r name,
       In r result -> part_cat_name r = Some name -> ~ occurs_in "Duplo" name).
Proof.
  intros result.
  assert (Hdmg : calculate_damage result
                 = Z.of_nat (length result)
                   + Z.of_nat (length (filter names_duplo result)))
    by (unfold calculate_damage; now rewrite duplo_damage_count).
  split; [exact Hdmg|]. split; [exact names_duplo_spec|]. split; [lia|].
  rewrite Hdmg. split.
  - intros Heq r name Hin Hname Hocc.
    assert (Hzero : length (filter names_duplo result) = O) by lia.
    rewrite filter_all_false in Hzero. specialize (Hzero r Hin).
    assert (Htrue : names_duplo r = true)
      by (apply names_duplo_spec; exists name; now split).
    congruence.
  - intros Hnone.
    assert (Hzero : length (filter names_duplo result) = O).
    { apply filter_all_false. intros r Hin.
      destruct (names_duplo r) eqn:Hd; [|reflexivity].
      apply names_duplo_spec in Hd. destruct Hd as (name & Hname & Hocc).
      elim (Hnone r name Hin Hname Hocc). }
    lia.
Qed.

(** The example of the specification: two "Duplo Bricks" rows and three
    "Bricks" rows give 5 + 2 = 7. *)
Example damage_two_duplo_three_bricks :
  calculate_damage [duplo_brick; brick; brick; duplo_brick; brick] = 7.
Proof. reflexivity. Qed.

(** The match distinguishes case, and a row without category counts
    once. *)
Example damage_case_and_nan :
  contains "Duplo" "duplo bricks" = false /\
  contains "Duplo" "Bricks, Duplo" = true /\
  calculate_damage [blank; duplo_brick] = 3.
Proof. repeat split. Qed.

End DamageFacts.

(** ** The explosion of the inventory: lines 35 to 38 of the script *)

Module ExplodeFacts.
Import Pandas Preprocess Spec Examples.

Lemma explode_row_length (r : inventory_part Z) (cell : list Z) :
  np_repeat_1 (ip_quantity r) = Ok cell ->
  Z.of_nat
    (length (explode_row
       {| ip_part_num := ip_part_num r; ip_color_id := ip_color_id r;
          ip_quantity := cell; ip_img_url := ip_img_url r |}))
  = Z.max (ip_quantity r) 1.
Proof.
  unfold np_repeat_1.
  destruct (Z.ltb_spec (ip_quantity r) 0) as [Hneg|Hge]; [discriminate|].
  intros H. injection H as <-. unfold explode_row. cbn [ip_quantity].
  destruct (Z.to_nat (ip_quantity r)) as [|k] eqn:Hk.
  - simpl. lia.
  - cbn [repeat map length]. rewrite length_map, repeat_length. lia.
Qed.

(** Every record of quantity at least 0 explodes, into [max q 1] rows. *)
Lemma explode_length : forall df : list (inventory_part Z),
  (forall r, In r df -> 0 <= ip_quantity r) ->
  exists pieces,
    explode_inventory_parts df = Ok pieces /\
    Z.of_nat (length pieces) = exploded_rows df.
Proof.
  unfold explode_inventory_parts.
  induction df as [|r df IH]; intros Hq.
  - exists []. split; reflexivity.
  - destruct IH as (pieces & Hrun & Hlen); [intros r' Hr'; apply Hq; now right|].
    destruct (apply_repeat df) as [repeated|] eqn:Hrep; [|discriminate].
    cbn [bindR] in Hrun. injection Hrun as <-.
    assert (Hr : 0 <= ip_quantity r) by (apply Hq; now left).
    destruct (np_repeat_1 (ip_quantity r)) as [cell|e] eqn:Hcell.
    2: { unfold np_repeat_1 in Hcell.
         destruct (Z.ltb_spec (ip_quantity r) 0); [lia | discriminate]. }
    eexists. split.
    + cbn [apply_repeat bindR]. rewrite Hcell, Hrep. cbn [bindR]. reflexivity.
    + unfold explode. cbn [flat_map]. rewrite map_app, length_app, Nat2Z.inj_add.
      rewrite !length_map. unfold explode in Hlen. rewrite length_map in Hlen.
      rewrite Hlen. rewrite (explode_row_length r cell Hcell). reflexivity.
Qed.

(** With no record of quantity 0 the rows are the sum of the quantities. *)
Lemma explode_length_positive : forall df : list (inventory_part Z),
  (forall r, In r df -> 1 <= ip_quantity r) ->
  exists pieces,
    explode_inventory_parts df = Ok pieces /\
    Z.of_nat (length pieces) = total_quantity df.
Proof.
  intros df Hq.
  destruct (explode_length df) as (pieces & Hrun & Hlen).
  - intros r Hr. specialize (Hq r Hr). lia.
  - exists pieces. split; [exact Hrun|]. rewrite Hlen. clear Hrun Hlen.
    induction df as [|r df IH]; [reflexivity|].
    cbn [exploded_rows total_quantity fold_right].
    fold (exploded_rows df). fold (total_quantity df).
    rewrite IH by (intros r' Hr'; apply Hq; now right).
    specialize (Hq r (or_introl eq_refl)). lia.
Qed.

(** A negative quantity stops the script. *)
Lemma explode_negative (r : inventory_part Z) (df : list (inventory_part Z)) :
  ip_quantity r < 0 ->
  explode_inventory_parts (r :: df) = Raise ValueError_negative_repeat.
Proof.
  intros Hneg. unfold explode_inventory_parts, np_repeat_1. cbn [apply_repeat].
  unfold np_repeat_1.
  destruct (Z.ltb_spec (ip_quantity r) 0); [reflexivity | lia].
Qed.

(** C3, at a record of quantity 0. The explosion keeps one row for it,
    where the sum of the quantities counts none: the empty array
    [np.repeat(1, 0)] explodes to a single row holding NaN, and the row
    stays when the [quantity] column is dropped. *)
Theorem explode_quantity_zero_keeps_a_row :
  explode_inventory_parts [no_plate]
  = Ok [{| u_part_num := Some "3023"%string; u_color_id := Some 0;
           u_img_url := None |}] /\
  total_quantity [no_plate] = 0 /\
  (exists pieces,
     explode_inventory_parts [three_bricks; no_plate; one_head] = Ok pieces /\
     length pieces = 5%nat /\
     total_quantity [three_bricks; no_plate; one_head] = 4).
Proof.
  split; [reflexivity|]. split; [reflexivity|].
  eexists. split; [reflexivity|]. split; reflexivity.
Qed.

(** The records of quantity at least 1 explode as the comment of the script
    says, a row per piece. *)
Example explode_three_and_one :
  option_map (@length unit_piece)
    (match explode_inventory_parts [three_bricks; one_head] with
     | Ok pieces => Some pieces
     | Raise _ => None
     end) = Some 4%nat.
Proof. reflexivity. Qed.

End ExplodeFacts.

(** ** The trial when a draw fails *)

Module TrialErrors.
Import Numpy Pandas App Spec SamplingFacts MonadFacts Examples.

(** [randint] returns a member of its range. *)
Lemma randint_range (low high : Z) (g : rng) :
  low < high ->
  exists v g', randint low high g = Ok (v, g') /\ low <= v < high.
Proof.
  intros Hlt. unfold randint.
  destruct (Z.leb_spec high low) as [Hle|_]; [lia|].
  eexists. eexists. split; [reflexivity|].
  pose proof (Z.mod_pos_bound (Z.of_nat (tape g (cursor g))) (high - low)). lia.
Qed.

(** The estimate before the offset, on the sizes of the select box. *)
Lemma base_num_legos_selectable (shoe_size : Z) :
  30 <= shoe_size <= 49 ->
  exists b, base_num_legos shoe_size = Ok b /\ 44 <= b <= 125.
Proof.
  intros Hsize.
  assert (Hall : forallb
            (fun s => match base_num_legos s with
                      | Ok b => (44 <=? b) && (b <=? 125)
                      | Raise _ => false
                      end) selectable_sizes = true)
    by (vm_compute; reflexivity).
  rewrite forallb_forall in Hall.
  assert (Hin : In shoe_size selectable_sizes).
  { unfold selectable_sizes. apply in_map_iff.
    exists (Z.to_nat shoe_size). split; [lia|]. apply in_seq. lia. }
  specialize (Hall shoe_size Hin).
  destruct (base_num_legos shoe_size) as [b|e]; [|discriminate].
  exists b. split; [reflexivity|]. lia.
Qed.

Lemma get_num_legos_stepped_on_selectable (shoe_size : Z) (g : rng) :
  30 <= shoe_size <= 49 ->
  exists n g1, get_num_legos_stepped_on shoe_size g = Ok (n, g1) /\ 34 <= n <= 134.
Proof.
  intros Hsize.
  destruct (base_num_legos_selectable shoe_size Hsize) as (b & Hb & Hrange).
  destruct (randint_range (-10) 10 g ltac:(lia)) as (v & g1 & Hv & Hvr).
  exists (b + v), g1. split; [|lia].
  unfold get_num_legos_stepped_on, bind, lift, ret. rewrite Hb, Hv. reflexivity.
Qed.

(** A small shoe size and the lowest offset: the draw is asked for -7 rows
    and raises; a clamped estimate would have given the trophy alone. *)
Lemma step_on_negative_draw_request :
  value (get_num_legos_stepped_on 10 (rng_of [0%nat])) = Ok (-7) /\
  value (get_legos_stepped_on true 10 pile5 (rng_of [0%nat]))
  = Raise ValueError_negative_rows.
Proof. split; vm_compute; reflexivity. Qed.

(** C4, as the code has it. The estimate reaches the draw as it is: a
    negative estimate makes the base draw raise the error of a negative
    request, and the trial with it. On the shoe sizes the select box
    offers, 30 to 49, the estimate is between 34 and 134, so that there
    the draw is never asked for a negative number of rows. *)
Theorem step_on_estimate_not_clamped :
  (forall (shoe_size : Z) (working : list lego) (g g1 : rng) (n : Z),
     get_num_legos_stepped_on shoe_size g = Ok (n, g1) -> n < 0 ->
     get_legos_stepped_on true shoe_size working g
     = Raise ValueError_negative_rows) /\
  (forall (shoe_size : Z) (g : rng),
     30 <= shoe_size <= 49 ->
     exists n g1,
       get_num_legos_stepped_on shoe_size g = Ok (n, g1) /\ 34 <= n <= 134).
Proof.
  split.
  - intros shoe_size working g g1 n Hnum Hneg.
    unfold get_legos_stepped_on.
    rewrite (bind_step _ _ g g1 n Hnum).
    apply bind_raise. now apply sample_negative.
  - exact get_num_legos_stepped_on_selectable.
Qed.

Lemma step_on_estimate_not_clamped_witness :
  get_legos_stepped_on true 10 pile5 (rng_of [0%nat])
  = Raise ValueError_negative_rows /\
  exists n g1,
    get_num_legos_stepped_on 42 (rng_of [7%nat]) = Ok (n, g1) /\ 34 <= n <= 134.
Proof.
  destruct step_on_estimate_not_clamped as [Hneg Hsel].
  split.
  - eapply (Hneg 10 pile5 (rng_of [0%nat]) _ (-7)); [lazy; reflexivity | lia].
  - apply Hsel. lia.
Defined.

(** No eligible trophy: the base draw succeeds, the trophy draw raises, and
    the trial raises with it instead of returning the base sample. *)
Lemma step_on_without_trophy_raises :
  filter is_trophy pile_without_trophy = [] /\
  value (bind (get_num_legos_stepped_on 2) (sample pile_without_trophy)
           (rng_of [12; 1; 0]%nat))
  = Ok [plate; brick] /\
  value (get_legos_stepped_on true 2 pile_without_trophy (rng_of [12; 1; 0]%nat))
  = Raise ValueError_larger_sample.
Proof. repeat split; vm_compute; reflexivity. Qed.

(** C6, as the code has it. The atom holds no handler: an error of the
    estimate, of the base draw or of the trophy draw is the outcome of the
    trial; and a working dataset without an eligible trophy row makes every
    trial raise, the trophy draw failing with the error of a sample larger
    than the population once the base draw has succeeded. *)
Theorem step_on_errors_propagate :
  forall (shoe_size : Z) (working : list lego) (g : rng),
    (forall e, get_num_legos_stepped_on shoe_size g = Raise e ->
       get_legos_stepped_on true shoe_size working g = Raise e) /\
    (forall n g1 e,
       get_num_legos_stepped_on shoe_size g = Ok (n, g1) ->
       sample working n g1 = Raise e ->
       get_legos_stepped_on true shoe_size working g = Raise e) /\
    (forall n g1 base g2,
       get_num_legos_stepped_on shoe_size g = Ok (n, g1) ->
       sample working n g1 = Ok (base, g2) ->
       filter is_trophy working = [] ->
       get_legos_stepped_on true shoe_size working g
       = Raise ValueError_larger_sample) /\
    (filter is_trophy working = [] ->
     exists e, get_legos_stepped_on true shoe_size working g = Raise e).
Proof.
  intros shoe_size working g.
  assert (Hnum : forall e, get_num_legos_stepped_on shoe_size g = Raise e ->
                 get_legos_stepped_on true shoe_size working g = Raise e)
    by (intros e He; unfold get_legos_stepped_on; now apply bind_raise).
  assert (Hbase : forall n g1 e,
            get_num_legos_stepped_on shoe_size g = Ok (n, g1) ->
            sample working n g1 = Raise e ->
            get_legos_stepped_on true shoe_size working g = Raise e).
  { intros n g1 e Hn Hs. unfold get_legos_stepped_on.
    rewrite (bind_step _ _ g g1 n Hn). now apply bind_raise. }
  assert (Htrophy : forall n g1 base g2,
            get_num_legos_stepped_on shoe_size g = Ok (n, g1) ->
            sample working n g1 = Ok (base, g2) ->
            filter is_trophy working = [] ->
            get_legos_stepped_on true shoe_size working g
            = Raise ValueError_larger_sample).
  { intros n g1 base g2 Hn Hs Hnone. unfold get_legos_stepped_on.
    rewrite (bind_step _ _ g g1 n Hn), (bind_step _ _ g1 g2 base Hs).
    apply bind_raise. rewrite Hnone. apply sample_too_many. simpl. lia. }
  repeat split; try assumption.
  intros Hnone.
  destruct (get_num_legos_stepped_on shoe_size g) as [[n g1]|e] eqn:Hn;
    [|exists e; now apply Hnum].
  destruct (sample working n g1) as [[base g2]|e] eqn:Hs;
    [|exists e; now apply (Hbase n g1)].
  exists ValueError_larger_sample. now apply (Htrophy n g1 base g2).
Qed.

Lemma step_on_errors_propagate_witness :
  get_legos_stepped_on true 2 pile_without_trophy (rng_of [12; 1; 0]%nat)
  = Raise ValueError_larger_sample /\
  get_legos_stepped_on true 10 pile5 (rng_of [0%nat])
  = Raise ValueError_negative_rows /\
  get_legos_stepped_on true (2 ^ 1100) pile5 (rng_of [0%nat])
  = Raise OverflowError_int_to_float.
Proof.
  split; [|split].
  - destruct (step_on_errors_propagate 2 pile_without_trophy (rng_of [12; 1; 0]%nat))
      as (_ & _ & Htrophy & _).
    eapply Htrophy; lazy; reflexivity.
  - destruct (step_on_errors_propagate 10 pile5 (rng_of [0%nat]))
      as (_ & Hbase & _).
    eapply Hbase; lazy; reflexivity.
  - destruct (step_on_errors_propagate (2 ^ 1100) pile5 (rng_of [0%nat]))
      as (Hnum & _).
    apply Hnum. vm_compute. reflexivity.
Defined.

End TrialErrors.

(** ** The catalog builder: joins and filter *)

Module PipelineFacts.
Import Pandas Preprocess Spec SamplingFacts MonadFacts Examples.

(** A row of a left merge: a left row, with a matching right row or with
    none when no right row matches. *)
Lemma merge_left_In {L R K} (eqb : K -> K -> bool)
    (kl : L -> option K) (kr : R -> option K)
    (left : list L) (right : list R) (l : L) (o : option R) :
  In (l, o) (merge_left eqb kl kr left right) ->
  In l left /\
  match o with
  | Some r => In r right /\ key_eqb eqb (kl l) (kr r) = true
  | None => forall r, In r right -> key_eqb eqb (kl l) (kr r) = false
  end.
Proof.
  unfold merge_left. intros Hin. apply in_flat_map in Hin.
  destruct Hin as (l' & Hl' & Hin).
  destruct (filter (fun r => key_eqb eqb (kl l') (kr r)) right) as [|m ms] eqn:Hf.
  - destruct Hin as [Heq|[]]. injection Heq as <- <-.
    split; [assumption|]. intros r Hr.
    destruct (key_eqb eqb (kl l') (kr r)) eqn:Hk; [|reflexivity].
    assert (Hin : In r (filter (fun r => key_eqb eqb (kl l') (kr r)) right))
      by (apply filter_In; now split).
    rewrite Hf in Hin. contradiction.
  - apply in_map_iff in Hin. destruct Hin as (r & Heq & Hr).
    injection Heq as <- <-. split; [assumption|].
    rewrite <- Hf in Hr. apply filter_In in Hr. exact Hr.
Qed.

(** Every left row is retained by a left merge. *)
Lemma merge_left_retains {L R K} (eqb : K -> K -> bool)
    (kl : L -> option K) (kr : R -> option K)
    (left : list L) (right : list R) (l : L) :
  In l left -> exists o, In (l, o) (merge_left eqb kl kr left right).
Proof.
  intros Hl. unfold merge_left.
  destruct (filter (fun r => key_eqb eqb (kl l) (kr r)) right) as [|m ms] eqn:Hf.
  - exists None. apply in_flat_map. exists l. split; [assumption|].
    rewrite Hf. now left.
  - exists (Some m). apply in_flat_map. exists l. split; [assumption|].
    rewrite Hf. now left.
Qed.

(** A unit piece carries the part number of the record it comes from. *)
Lemma explode_inventory_parts_In (df : list (inventory_part Z)) :
  forall pieces u,
    explode_inventory_parts df = Ok pieces -> In u pieces ->
    exists r, In r df /\ u_part_num u = ip_part_num r.
Proof.
  unfold explode_inventory_parts.
  induction df as [|r df IH]; intros pieces u Hrun Hu.
  - injection Hrun as <-. contradiction.
  - cbn [apply_repeat bindR] in Hrun.
    destruct (np_repeat_1 (ip_quantity r)) as [cell|]; [|discriminate].
    cbn [bindR] in Hrun.
    destruct (apply_repeat df) as [repeated|]; [|discriminate].
    cbn [bindR] in Hrun. injection Hrun as <-.
    unfold explode in Hu. cbn [flat_map] in Hu.
    rewrite map_app in Hu. apply in_app_or in Hu. destruct Hu as [Hu|Hu].
    + exists r. split; [now left|].
      apply in_map_iff in Hu. destruct Hu as (x & <- & Hx).
      unfold explode_row in Hx. cbn [ip_quantity ip_part_num ip_color_id ip_img_url] in Hx.
      destruct cell as [|q cell].
      * destruct Hx as [<-|[]]. reflexivity.
      * apply in_map_iff in Hx. destruct Hx as (q' & <- & _). reflexivity.
    + destruct (IH _ u eq_refl Hu) as (r' & Hr' & Heq).
      exists r'. split; [now right | exact Heq].
Qed.

(** The rows of the merged frame, column by column. *)
Lemma merge_tables_In (pieces : list unit_piece) (parts : list part)
    (part_categories : list part_category) (colors : list color) (r : lego) :
  In r (merge_tables pieces parts part_categories colors) ->
  exists u p pc,
    In (u, p) (merge_left String.eqb u_part_num p_part_num pieces parts) /\
    In (u, p, pc)
       (merge_left Z.eqb (fun x => right_col p_part_cat_id (snd x)) pc_id
          (merge_left String.eqb u_part_num p_part_num pieces parts)
          part_categories) /\
    part_name r = right_col p_part_name p /\
    part_cat_name r = right_col pc_part_cat_name pc.
Proof.
  unfold merge_tables. intros Hin. apply in_map_iff in Hin.
  destruct Hin as ([[[u p] pc] c] & <- & Hin).
  apply merge_left_In in Hin. destruct Hin as [Hcat _].
  pose proof Hcat as Hparts. apply merge_left_In in Hparts.
  destruct Hparts as [Hparts _].
  exists u, p, pc. repeat split; assumption.
Qed.

Lemma remove_category_In (name : string) (pile : list lego) (r : lego) :
  In r (remove_category name pile) <-> In r pile /\ part_cat_name r <> Some name.
Proof.
  unfold remove_category. rewrite filter_In, negb_true_iff.
  unfold cell_eqb. destruct (part_cat_name r) as [c|].
  - rewrite String.eqb_neq. split; intros [H1 H2]; (split; [assumption|]);
      congruence.
  - split; intros [H1 _]; (split; [assumption|]); [discriminate | reflexivity].
Qed.

Lemma remove_non_lego_In (pile : list lego) (r : lego) :
  In r (remove_non_lego pile) <-> In r pile /\ ~ excluded r.
Proof.
  unfold remove_non_lego, excluded. rewrite !remove_category_In. tauto.
Qed.

(** The working dataset is drawn from the pile the script has built. *)
Lemma main_sampling_inv (size : Z) (inventory_parts : list (inventory_part Z))
    (parts : list part) (part_categories : list part_category)
    (colors : list color) (g g' : rng) (working : list lego) :
  main_sampling size inventory_parts parts part_categories colors g
  = Ok (working, g') ->
  exists pieces,
    explode_inventory_parts inventory_parts = Ok pieces /\
    Z.of_nat (length working) = size /\
    drawn_without_replacement
      (remove_non_lego (merge_tables pieces parts part_categories colors))
      working.
Proof.
  unfold main_sampling, build_lego_pile. intros Hrun.
  apply bind_ok in Hrun. destruct Hrun as (pile & g1 & Hpile & Hsample).
  apply lift_ok in Hpile. destruct Hpile as [Hpile ->].
  destruct (explode_inventory_parts inventory_parts) as [pieces|]; [|discriminate].
  cbn [bindR] in Hpile. injection Hpile as <-.
  apply sample_inv in Hsample. destruct Hsample as (_ & Hlen & Hdrawn).
  exists pieces. repeat split; assumption.
Qed.

(** C9. The filter retains the rows of every other category and no row of
    the category "Other" or "Stickers"; so no row of the working dataset,
    which is drawn from the filtered rows, has one of the two names. *)
Theorem filter_removes_other_and_stickers :
  (forall (rows : list lego) (r : lego),
     In r (remove_non_lego rows) <-> In r rows /\ ~ excluded r) /\
  (forall (size : Z) (inventory_parts : list (inventory_part Z))
          (parts : list part) (part_categories : list part_category)
          (colors : list color) (g g' : rng) (working : list lego),
     main_sampling size inventory_parts parts part_categories colors g
     = Ok (working, g') ->
     forall r, In r working -> ~ excluded r).
Proof.
  split; [exact remove_non_lego_In|].
  intros size inventory_parts parts part_categories colors g g' working Hrun r Hr.
  apply main_sampling_inv in Hrun. destruct Hrun as (pieces & _ & _ & Hdrawn).
  apply (drawn_In _ _ Hdrawn) in Hr. apply remove_non_lego_In in Hr. tauto.
Qed.

Lemma filter_removes_other_and_stickers_witness :
  exists working g',
    main_sampling 3 inventory parts_table categories_table colors_table
      (rng_of [2; 2; 0]%nat) = Ok (working, g') /\
    length working = 3%nat /\
    forall r, In r working -> ~ excluded r.
Proof.
  eexists. eexists. split; [lazy; reflexivity|]. split; [reflexivity|].
  eapply (proj2 filter_removes_other_and_stickers 3 inventory parts_table
            categories_table colors_table (rng_of [2; 2; 0]%nat)).
  lazy. reflexivity.
Defined.

(** The sticker and the string of the inventory are joined and then
    removed. *)
Example filter_on_tables :
  option_map (map part_cat_name)
    (match build_lego_pile inventory parts_table categories_table colors_table with
     | Ok pile => Some pile
     | Raise _ => None
     end)
  = Some [Some "Bricks"; Some "Bricks"; Some "Bricks"; Some "Minifig Heads"]%string.
Proof. reflexivity. Qed.

(** A part number the parts table does not hold: the left joins retain the
    row, without a part name and without a category name, the filter
    retains it, and the working dataset, here the sample of size 1, is that
    row. *)
Lemma join_leaves_unmatched_row_unnamed :
  build_lego_pile [one_head] [] categories_table colors_table
  = Ok [{| img_url := None; part_name := None; part_cat_name := None;
           color_name := Some "Yellow"%string; rgb := Some "F2CD37"%string |}] /\
  value (main_sampling 1 [one_head] [] categories_table colors_table (rng_of []))
  = Ok [{| img_url := None; part_name := None; part_cat_name := None;
           color_name := Some "Yellow"%string; rgb := Some "F2CD37"%string |}].
Proof. split; vm_compute; reflexivity. Qed.

(** C5, as the code has it. The joins are left joins: a row is retained
    whether its keys match or not. Where the reference tables resolve every
    key (every part number of the inventory is in the parts table, every
    part has a name and a category of the category table, every category
    has a name), every row of the working dataset has a part name and a
    category name. *)
Theorem joined_rows_named_when_keys_resolve :
  forall (size : Z) (inventory_parts : list (inventory_part Z))
         (parts : list part) (part_categories : list part_category)
         (colors : list color) (g g' : rng) (working : list lego),
    main_sampling size inventory_parts parts part_categories colors g
    = Ok (working, g') ->
    keys_resolve inventory_parts parts part_categories ->
    forall r, In r working -> named r.
Proof.
  intros size inventory_parts parts part_categories colors g g' working Hrun
         (Hinv & Hparts & Hcats) r Hr.
  apply main_sampling_inv in Hrun. destruct Hrun as (pieces & Hpieces & _ & Hdrawn).
  apply (drawn_In _ _ Hdrawn) in Hr. apply remove_non_lego_In in Hr.
  destruct Hr as [Hr _]. apply merge_tables_In in Hr.
  destruct Hr as (u & p & pc & Hup & Hupc & Hname & Hcat).
  apply merge_left_In in Hup. destruct Hup as [Hu Hp].
  apply merge_left_In in Hupc. destruct Hupc as [_ Hpc]. cbn [snd] in Hpc.
  destruct (explode_inventory_parts_In inventory_parts pieces u Hpieces Hu)
    as (r0 & Hr0 & Hnum).
  destruct (Hinv r0 Hr0) as (p0 & Hp0 & Hmatch). rewrite <- Hnum in Hmatch.
  destruct p as [p1|]; [|rewrite (Hp p0 Hp0) in Hmatch; discriminate].
  destruct Hp as [Hp1 _]. destruct (Hparts p1 Hp1) as (Hp1name & pc0 & Hpc0 & Hcmatch).
  cbn [right_col] in Hpc, Hname.
  destruct pc as [pc1|]; [|rewrite (Hpc pc0 Hpc0) in Hcmatch; discriminate].
  destruct Hpc as [Hpc1 _]. cbn [right_col] in Hcat.
  split; [rewrite Hname; exact Hp1name | rewrite Hcat; exact (Hcats pc1 Hpc1)].
Qed.

Lemma joined_rows_named_when_keys_resolve_witness :
  keys_resolve inventory parts_table categories_table /\
  exists working g',
    main_sampling 3 inventory parts_table categories_table colors_table
      (rng_of [2; 2; 0]%nat) = Ok (working, g') /\
    forall r, In r working -> named r.
Proof.
  assert (Hkeys : keys_resolve inventory parts_table categories_table).
  { unfold keys_resolve. split; [|split].
    - intros r Hr.
      apply (proj1 (existsb_exists
               (fun p => key_eqb String.eqb (ip_part_num r) (p_part_num p))
               parts_table)).
      simpl in Hr. decompose [or] Hr; subst; try contradiction; reflexivity.
    - intros p Hp.
      assert (Hname : p_part_name p <> None)
        by (simpl in Hp; decompose [or] Hp; subst; try contradiction; discriminate).
      split; [exact Hname|].
      apply (proj1 (existsb_exists
               (fun pc => key_eqb Z.eqb (p_part_cat_id p) (pc_id pc))
               categories_table)).
      simpl in Hp. decompose [or] Hp; subst; try contradiction; reflexivity.
    - intros pc Hpc.
      simpl in Hpc. decompose [or] Hpc; subst; try contradiction; discriminate. }
  split; [exact Hkeys|].
  eexists. eexists. split; [lazy; reflexivity|].
  eapply (joined_rows_named_when_keys_resolve 3 inventory parts_table
            categories_table colors_table (rng_of [2; 2; 0]%nat));
    [lazy; reflexivity | exact Hkeys].
Defined.

End PipelineFacts.

(** ** The colour counts: [value_counts] in [visualize_lego_colors] *)

Module ColorFacts.
Import Pandas App Spec Examples.

Lemma total_incr (k : string) (acc : list (string * nat)) :
  total (incr k acc) = S (total acc).
Proof.
  induction acc as [|[k' c] acc IH]; [reflexivity|].
  cbn [incr]. destruct (String.eqb k k'); cbn [total fold_right snd] in *.
  - reflexivity.
  - fold (total (incr k acc)). fold (total acc). rewrite IH. lia.
Qed.

Lemma total_fold_incr (col : list string) : forall acc,
  total (fold_left (fun acc k => incr k acc) col acc)
  = (length col + total acc)%nat.
Proof.
  induction col as [|k col IH]; intros acc; [reflexivity|].
  cbn [fold_left length]. rewrite IH, total_incr. lia.
Qed.

Lemma total_insert_desc (x : string * nat) (l : list (string * nat)) :
  total (insert_desc x l) = (snd x + total l)%nat.
Proof.
  induction l as [|y l IH]; [reflexivity|].
  cbn [insert_desc]. destruct (snd y <=? snd x)%nat; cbn [total fold_right].
  - reflexivity.
  - fold (total (insert_desc x l)). fold (total l). rewrite IH. lia.
Qed.

Lemma total_sort_desc (l : list (string * nat)) :
  total (sort_desc l) = total l.
Proof.
  induction l as [|x l IH]; [reflexivity|].
  cbn [sort_desc fold_right]. fold (sort_desc l).
  rewrite total_insert_desc, IH. reflexivity.
Qed.

Lemma length_dropna {A} (col : list (option A)) :
  length (dropna col) = length (filter notna col).
Proof.
  induction col as [|[v|] col IH]; cbn [dropna flat_map filter notna app length];
    [reflexivity | |]; fold (dropna col); now rewrite IH.
Qed.

Lemma filter_map_length {A B} (f : A -> B) (p : B -> bool) (l : list A) :
  length (filter p (map f l)) = length (filter (fun x => p (f x)) l).
Proof.
  induction l as [|x l IH]; [reflexivity|].
  cbn [map filter]. destruct (p (f x)); cbn [length]; now rewrite IH.
Qed.

(** The counts sum to the number of cells that are not NaN. *)
Lemma value_counts_total (col : list (option string)) :
  total (value_counts col) = length (filter notna col).
Proof.
  unfold value_counts, tally.
  rewrite total_sort_desc, total_fold_incr, length_dropna. simpl. lia.
Qed.

(** The table groups by value: what it records for a name is the number of
    cells holding that name. *)
Lemma count_for_incr (k k' : string) (acc : list (string * nat)) :
  count_for k (incr k' acc)
  = ((if String.eqb k k' then 1 else 0) + count_for k acc)%nat.
Proof.
  induction acc as [|[k0 c] acc IH].
  - cbn [incr count_for fold_right fst snd]. destruct (String.eqb k k'); reflexivity.
  - cbn [incr]. destruct (String.eqb k' k0) eqn:Heq0.
    + apply String.eqb_eq in Heq0. subst k0.
      cbn [count_for fold_right fst snd]. destruct (String.eqb k k'); lia.
    + cbn [count_for fold_right fst snd]. fold (count_for k (incr k' acc)).
      fold (count_for k acc). rewrite IH.
      destruct (String.eqb k k0), (String.eqb k k'); lia.
Qed.

Lemma count_for_fold_incr (k : string) (col : list string) : forall acc,
  count_for k (fold_left (fun acc k' => incr k' acc) col acc)
  = (occurrences k col + count_for k acc)%nat.
Proof.
  induction col as [|k' col IH]; intros acc; [reflexivity|].
  cbn [fold_left]. rewrite IH, count_for_incr. unfold occurrences.
  cbn [filter]. destruct (String.eqb k k'); cbn [length]; lia.
Qed.

Lemma count_for_insert_desc (k : string) (x : string * nat) (l : list (string * nat)) :
  count_for k (insert_desc x l)
  = ((if String.eqb k (fst x) then snd x else 0) + count_for k l)%nat.
Proof.
  induction l as [|y l IH]; cbn [insert_desc].
  - cbn [count_for fold_right]. destruct (String.eqb k (fst x)); lia.
  - destruct (snd y <=? snd x)%nat; cbn [count_for fold_right].
    + fold (count_for k l). destruct (String.eqb k (fst x)); lia.
    + fold (count_for k (insert_desc x l)). fold (count_for k l). rewrite IH.
      destruct (String.eqb k (fst x)), (String.eqb k (fst y)); lia.
Qed.

Lemma value_counts_groups (k : string) (col : list (option string)) :
  count_for k (value_counts col) = occurrences k (dropna col).
Proof.
  unfold value_counts, tally.
  assert (Hsort : forall l, count_for k (sort_desc l) = count_for k l).
  { induction l as [|x l IH]; [reflexivity|].
    cbn [sort_desc fold_right]. fold (sort_desc l).
    rewrite count_for_insert_desc, IH. cbn [count_for fold_right].
    fold (count_for k l). destruct (String.eqb k (fst x)); lia. }
  rewrite Hsort, count_for_fold_incr. simpl. lia.
Qed.

Lemma filter_length_all {A} (f : A -> bool) (l : list A) :
  length (filter f l) = length l <-> forall x, In x l -> f x = true.
Proof.
  induction l as [|x l IH]; simpl.
  - split; [intros _ y [] | reflexivity].
  - pose proof (filter_length_le f l) as Hle.
    destruct (f x) eqn:Hfx; simpl.
    + split.
      * intros H y [<-|Hy]; [assumption|]. apply IH; [lia | assumption].
      * intros H. f_equal. apply IH. intros y Hy. apply H. now right.
    + split; [lia|]. intros H. specialize (H x (or_introl eq_refl)). congruence.
Qed.

Lemma occurrences_color_name (name : string) (result : list lego) :
  occurrences name (dropna (map color_name result))
  = length (filter (fun r => cell_eqb (color_name r) name) result).
Proof.
  unfold occurrences.
  induction result as [|r result IH]; [reflexivity|].
  cbn [map dropna flat_map filter]. fold (dropna (map color_name result)).
  unfold cell_eqb at 1. destruct (color_name r) as [c|]; cbn [app filter].
  - rewrite (String.eqb_sym c name).
    destruct (String.eqb name c); cbn [length]; now rewrite IH.
  - exact IH.
Qed.

(** A trial on a pile whose trophy has a colour without a name: the trophy
    is stepped on with a brick, and the treemap counts the brick alone. *)
Lemma color_counts_skip_unnamed_colour :
  value (get_legos_stepped_on true 2 [brick; uncoloured_head] (rng_of [11; 0; 0]%nat))
  = Ok (Some {| announced := 2; legos_stepped_on := [brick; uncoloured_head] |}) /\
  visualize_lego_colors [brick; uncoloured_head]
  = Ok {| fig_data := [("Red"%string, 1%nat)];
          fig_color_discrete_map :=
            [(Some "Red", "#C91A09"); (None, "#F2CD37")]%string |} /\
  total [("Red"%string, 1%nat)] <> length [brick; uncoloured_head].
Proof. repeat split; try (vm_compute; reflexivity). discriminate. Qed.

(** C7, as the code has it. [value_counts] drops the rows whose colour name
    is missing: the counts of the treemap sum to the number of rows that
    have a colour name, which is the number of rows exactly when every row
    has one; and the count of each name is the number of rows of that
    colour. *)
Theorem color_counts_sum_to_named_rows :
  forall (result : list lego) (fig : Figure),
    visualize_lego_colors result = Ok fig ->
    total (fig_data fig)
    = length (filter (fun r => notna (color_name r)) result) /\
    (total (fig_data fig) = length result <->
     forall r, In r result -> color_name r <> None) /\
    (forall name,
       count_for name (fig_data fig)
       = length (filter (fun r => cell_eqb (color_name r) name) result)).
Proof.
  intros result fig Hfig. unfold visualize_lego_colors in Hfig.
  destruct (get_lego_color_map result) as [color_map|]; [|discriminate].
  cbn [bindR] in Hfig. injection Hfig as <-. cbn [fig_data].
  assert (Htotal : total (value_counts (map color_name result))
                   = length (filter (fun r => notna (color_name r)) result))
    by (rewrite value_counts_total; apply filter_map_length).
  split; [exact Htotal|]. split.
  - rewrite Htotal, filter_length_all. split; intros H r Hr; specialize (H r Hr).
    + destruct (color_name r); [discriminate | discriminate H].
    + destruct (color_name r); [reflexivity | now elim H].
  - intros name. rewrite value_counts_groups. apply occurrences_color_name.
Qed.

Lemma color_counts_sum_to_named_rows_witness :
  total [("Yellow", 2); ("Red", 1); ("Blue", 1); ("Black", 1)]%string%nat
  = length (filter (fun r => notna (color_name r)) pile5) /\
  (total [("Yellow", 2); ("Red", 1); ("Blue", 1); ("Black", 1)]%string%nat
   = length pile5 <->
   forall r, In r pile5 -> color_name r <> None) /\
  (forall name,
     count_for name [("Yellow", 2); ("Red", 1); ("Blue", 1); ("Black", 1)]%string%nat
     = length (filter (fun r => cell_eqb (color_name r) name) pile5)).
Proof.
  eapply (color_counts_sum_to_named_rows pile5
            {| fig_data := [("Yellow", 2); ("Red", 1); ("Blue", 1); ("Black", 1)]%string%nat;
               fig_color_discrete_map := _ |}).
  lazy. reflexivity.
Defined.

End ColorFacts.

(** ** The featured enemy: [render_death_roll] *)

Module DeathRollFacts.
Import Pandas App Spec Examples.

(** The featured enemy is the first row of the death roll that has both a
    part name and an image. *)
Lemma featured_enemy_first_complete (legos : list lego) :
  featured_enemy (render_death_roll legos)
  = find (fun r => notna (f_part_name r) && notna (f_img_url r))
      (get_death_roll legos).
Proof.
  unfold render_death_roll, dropna_rows. cbn [featured_enemy].
  induction (get_death_roll legos) as [|r l IH]; [reflexivity|].
  cbn [filter find].
  destruct (notna (f_part_name r) && notna (f_img_url r)); [reflexivity|].
  exact IH.
Qed.

(** On a death roll all of whose rows have a part name it is the first row
    that has an image. *)
Lemma featured_enemy_when_named (legos : list lego) :
  (forall r, In r (get_death_roll legos) -> f_part_name r <> None) ->
  featured_enemy (render_death_roll legos)
  = first_with_image (get_death_roll legos).
Proof.
  rewrite featured_enemy_first_complete. unfold first_with_image.
  induction (get_death_roll legos) as [|r l IH]; intros Hnamed; [reflexivity|].
  cbn [find].
  assert (Hr : notna (f_part_name r) = true).
  { specialize (Hnamed r (or_introl eq_refl)).
    destruct (f_part_name r); [reflexivity | now elim Hnamed]. }
  rewrite Hr. cbn [andb]. destruct (notna (f_img_url r)); [reflexivity|].
  apply IH. intros r' Hr'. apply Hnamed. now right.
Qed.

(** C8, at a death roll whose first figure with an image has no part name.
    The first row with an image is the nameless head, and [dropna()]
    removes it with the rows that have no image: the featured enemy is the
    next complete row, and there is none when the nameless head is the only
    figure with an image. *)
Theorem featured_enemy_skips_nameless_figure :
  first_with_image (get_death_roll [brick; nameless_head; head])
  = Some {| f_part_name := None; f_img_url := img_url nameless_head |} /\
  featured_enemy (render_death_roll [brick; nameless_head; head])
  = Some {| f_part_name := part_name head; f_img_url := img_url head |} /\
  first_with_image (get_death_roll [brick; nameless_head])
  = Some {| f_part_name := None; f_img_url := img_url nameless_head |} /\
  featured_enemy (render_death_roll [brick; nameless_head]) = None.
Proof. repeat split. Qed.

(** With the part names present the featured enemy is the first figure
    with an image, and there is none when no figure has an image. *)
Example featured_enemy_of_pile :
  featured_enemy (render_death_roll [brick; faceless_head; head; nameless_head])
  = Some {| f_part_name := part_name head; f_img_url := img_url head |} /\
  featured_enemy (render_death_roll [brick; faceless_head; plate]) = None /\
  vanquished (render_death_roll [brick; faceless_head; plate]) = 1%nat.
Proof. repeat split. Qed.

End DeathRollFacts.

(** ** Rounding to the nearest float *)

Module RoundFacts.
Import Float Rounding.

(** *** Digits and shifts *)

Lemma digits2_pos_bounds (p : positive) :
  2 ^ (Z.pos (digits2_pos p) - 1) <= Z.pos p < 2 ^ Z.pos (digits2_pos p).
Proof.
  induction p as [p IH|p IH|]; cbn [digits2_pos].
  - rewrite Pos2Z.inj_succ.
    replace (Z.succ (Z.pos (digits2_pos p)) - 1) with (Z.succ (Z.pos (digits2_pos p) - 1)) by lia.
    rewrite !Z.pow_succ_r by lia. lia.
  - rewrite Pos2Z.inj_succ.
    replace (Z.succ (Z.pos (digits2_pos p)) - 1) with (Z.succ (Z.pos (digits2_pos p) - 1)) by lia.
    rewrite !Z.pow_succ_r by lia. lia.
  - simpl. lia.
Qed.

(** A number between two consecutive powers of 2 has that many digits. *)
Lemma digits2_pos_unique (p : positive) (d : Z) :
  2 ^ (d - 1) <= Z.pos p < 2 ^ d -> 0 < d -> Z.pos (digits2_pos p) = d.
Proof.
  intros [Hlo Hhi] Hd.
  pose proof (digits2_pos_bounds p) as [Hlo' Hhi'].
  destruct (Z.lt_trichotomy (Z.pos (digits2_pos p)) d) as [Hlt|[Heq|Hgt]]; [|exact Heq|].
  - assert (2 ^ Z.pos (digits2_pos p) <= 2 ^ (d - 1)) by (apply Z.pow_le_mono_r; lia). lia.
  - assert (2 ^ d <= 2 ^ (Z.pos (digits2_pos p) - 1)) by (apply Z.pow_le_mono_r; lia). lia.
Qed.

(** One right shift of the register, on a mantissa that is not negative. *)
Lemma shr_1_spec (m : Z) (r s : bool) :
  0 <= m ->
  shr_1 {| shr_m := m; shr_r := r; shr_s := s |}
  = {| shr_m := m / 2; shr_r := Z.odd m; shr_s := r || s |}.
Proof.
  intros Hm. destruct m as [|p|p]; [reflexivity| |lia].
  destruct p as [p|p|]; cbn [shr_1].
  - f_equal. rewrite Pos2Z.inj_xI. 
    rewrite Z.mul_comm, Z.div_add_l by lia. simpl. lia.
  - f_equal. rewrite Pos2Z.inj_xO. rewrite Z.mul_comm, Z.div_mul by lia. reflexivity.
  - reflexivity.
Qed.

Lemma shifted_0 (M : Z) : shifted M 0 {| shr_m := M; shr_r := false; shr_s := false |}.
Proof.
  unfold shifted. cbn [shr_m shr_r shr_s]. rewrite Z.pow_0_r, Z.div_1_r, Z.mod_1_r.
  repeat split; try discriminate; lia.
Qed.

Lemma shifted_step (M k : Z) (st : shr_record) :
  0 <= M -> 0 <= k -> shifted M k st -> shifted M (k + 1) (shr_1 st).
Proof.
  intros HM Hk (Hm & Hr & Hs). destruct st as [m r s]. cbn [shr_m shr_r shr_s] in *.
  assert (Hpk : 0 < 2 ^ k) by (apply Z.pow_pos_nonneg; lia).
  assert (Hm0 : 0 <= m) by (subst m; apply Z.div_pos; lia).
  rewrite shr_1_spec by exact Hm0. unfold shifted. cbn [shr_m shr_r shr_s].
  rewrite Z.pow_add_r, Z.pow_1_r by lia.
  pose proof (Z.div_mod M (2 ^ k) ltac:(lia)) as HMk.
  pose proof (Z.mod_pos_bound M (2 ^ k) Hpk) as Hremk.
  pose proof (Z.div_mod m 2 ltac:(lia)) as Hm2.
  pose proof (Z.mod_pos_bound m 2 ltac:(lia)) as Hb.
  assert (Hdiv : M / (2 ^ k * 2) = m / 2).
  { rewrite <- Z.div_div by lia. now rewrite <- Hm. }
  assert (Hmod : M mod (2 ^ k * 2) = (m mod 2) * 2 ^ k + M mod 2 ^ k).
  { rewrite Z.rem_mul_r by lia. rewrite <- Hm. lia. }
  rewrite Hdiv, Hmod.
  assert (Hodd : Z.odd m = true <-> m mod 2 = 1).
  { rewrite Zmod_odd. destruct (Z.odd m); split; intros; try reflexivity; try discriminate; lia. }
  split; [reflexivity|].
  assert (Hcases : m mod 2 = 0 \/ m mod 2 = 1) by lia.
  rewrite orb_true_iff, Hr, Hs, Hodd.
  destruct Hcases as [Hz|Ho]; rewrite ?Hz, ?Ho; split; lia.
Qed.

(** [n] shifts, as [iter_pos] runs them. *)
Lemma shifted_iter (M : Z) (n : positive) : 0 <= M ->
  forall k st, 0 <= k -> shifted M k st ->
  shifted M (k + Z.pos n) (iter_pos shr_1 n st).
Proof.
  intros HM. induction n as [n IH|n IH|]; intros k st Hk Hst; cbn [iter_pos].
  - replace (k + Z.pos n~1) with (k + 1 + Z.pos n + Z.pos n) by lia.
    apply IH; [lia|]. apply IH; [lia|]. now apply shifted_step.
  - replace (k + Z.pos n~0) with (k + Z.pos n + Z.pos n) by lia.
    apply IH; [lia|]. now apply IH.
  - now apply shifted_step.
Qed.

(** The decision of [round_nearest_even] on the register is [round_at]. *)
Lemma rne_spec (M k : Z) (st : shr_record) :
  0 <= k -> shifted M k st ->
  round_nearest_even (shr_m st) (loc_of_shr_record st) = round_at M k.
Proof.
  intros Hk (Hm & Hr & Hs). destruct st as [m r s]. cbn [shr_m shr_r shr_s] in *.
  unfold round_at. rewrite <- Hm.
  assert (Hpk : 0 < 2 ^ k) by (apply Z.pow_pos_nonneg; lia).
  pose proof (Z.mod_pos_bound M (2 ^ k) Hpk) as Hrem.
  destruct r, s; cbn [loc_of_shr_record round_nearest_even].
  - assert (H1 : 2 ^ k <= 2 * (M mod 2 ^ k)) by now apply Hr.
    assert (H2 : 2 * (M mod 2 ^ k) <> 2 ^ k) by now apply Hs.
    destruct (Z.ltb_spec (2 ^ k) (2 * (M mod 2 ^ k))); [reflexivity | lia].
  - assert (H1 : 2 ^ k <= 2 * (M mod 2 ^ k)) by now apply Hr.
    assert (H2 : ~ (M mod 2 ^ k <> 0 /\ 2 * (M mod 2 ^ k) <> 2 ^ k))
      by (intros H; apply Hs in H; discriminate).
    assert (H3 : 2 * (M mod 2 ^ k) = 2 ^ k) by lia.
    destruct (Z.ltb_spec (2 ^ k) (2 * (M mod 2 ^ k))); [lia|].
    rewrite (proj2 (Z.eqb_eq _ _) H3). cbn [orb andb].
    rewrite <- Z.negb_even. destruct (Z.even m); reflexivity.
  - assert (H1 : ~ 2 ^ k <= 2 * (M mod 2 ^ k))
      by (intros H; apply Hr in H; discriminate).
    destruct (Z.ltb_spec (2 ^ k) (2 * (M mod 2 ^ k))); [lia|].
    destruct (Z.eqb_spec (2 * (M mod 2 ^ k)) (2 ^ k)); [lia|]. reflexivity.
  - assert (H1 : ~ 2 ^ k <= 2 * (M mod 2 ^ k))
      by (intros H; apply Hr in H; discriminate).
    destruct (Z.ltb_spec (2 ^ k) (2 * (M mod 2 ^ k))); [lia|].
    destruct (Z.eqb_spec (2 * (M mod 2 ^ k)) (2 ^ k)); [lia|]. reflexivity.
Qed.

(** [shr_fexp] shifts an exact mantissa down to the exponent of its
    format, and not at all when it is already at or above it. *)
Lemma shr_fexp_spec (M e : Z) :
  0 <= M ->
  let n := Z.max 0 (fexp (Zdigits2 M + e) - e) in
  exists st, shr_fexp prec emax M e loc_Exact = (st, e + n) /\ shifted M n st.
Proof.
  intros HM n. unfold shr_fexp, shr. fold fexp. cbn [shr_record_of_loc].
  subst n. destruct (fexp (Zdigits2 M + e) - e) as [|p|p] eqn:Hn.
  - eexists. rewrite Z.max_l, Z.add_0_r by lia. split; [reflexivity|]. apply shifted_0.
  - eexists. rewrite Z.max_r by lia. split; [reflexivity|].
    apply (shifted_iter M p HM 0 _ ltac:(lia) (shifted_0 M)).
  - eexists. rewrite Z.max_l, Z.add_0_r by lia. split; [reflexivity|]. apply shifted_0.
Qed.

Lemma fexp_eq (x : Z) : fexp x = Z.max (x - 53) (-1074).
Proof. reflexivity. Qed.

Lemma bounded_iff (m : positive) (e : Z) :
  bounded prec emax m e = true <->
  fexp (Z.pos (digits2_pos m) + e) = e /\ e <= 971.
Proof.
  unfold bounded, canonical_mantissa. fold fexp.
  rewrite andb_true_iff, Z.eqb_eq, Z.leb_le. reflexivity.
Qed.

Lemma pow2_pos (k : Z) : 0 <= k -> 0 < 2 ^ k.
Proof. intros. apply Z.pow_pos_nonneg; lia. Qed.

Lemma mul_pow_lt (m a b c : Z) :
  0 <= a -> 0 <= b -> m < 2 ^ b -> b + a <= c -> m * 2 ^ a < 2 ^ c.
Proof.
  intros Ha Hb Hm Hc.
  pose proof (pow2_pos a Ha).
  assert (2 ^ b * 2 ^ a <= 2 ^ c)
    by (rewrite <- Z.pow_add_r by lia; apply Z.pow_le_mono_r; lia).
  nia.
Qed.

Lemma mul_pow_ge (m a b c : Z) :
  0 <= a -> 0 <= b -> 2 ^ b <= m -> c <= b + a -> 2 ^ c <= m * 2 ^ a.
Proof.
  intros Ha Hb Hm Hc.
  pose proof (pow2_pos a Ha).
  assert (2 ^ c <= 2 ^ b * 2 ^ a)
    by (rewrite <- Z.pow_add_r by lia; apply Z.pow_le_mono_r; lia).
  nia.
Qed.

(** The quotient kept by the shift has at most 53 digits, and exactly 53
    above the subnormal range *)
Lemma quotient_bounds (m : positive) (e : Z) :
  let n := fexp (Z.pos (digits2_pos m) + e) - e in
  0 <= n ->
  0 <= Z.pos m / 2 ^ n < 2 ^ 53 /\
  (-1074 < e + n -> 2 ^ 52 <= Z.pos m / 2 ^ n).
Proof.
  intros n Hn. subst n. rewrite fexp_eq in *.
  set (d := Z.pos (digits2_pos m)) in *.
  set (n := Z.max (d + e - 53) (-1074) - e) in *.
  pose proof (digits2_pos_bounds m) as [Hlo Hhi]. fold d in Hlo, Hhi.
  pose proof (pow2_pos n Hn) as Hpn.
  assert (Hd : 0 < d) by (subst d; lia).
  split; [split|].
  - apply Z.div_pos; lia.
  - apply Z.div_lt_upper_bound; [lia|].
    assert (2 ^ d <= 2 ^ n * 2 ^ 53)
      by (rewrite <- Z.pow_add_r by lia; apply Z.pow_le_mono_r; lia).
    lia.
  - intros Hsub. assert (Hnd : n = d - 53) by lia.
    apply Z.div_le_lower_bound; [lia|].
    assert (2 ^ n * 2 ^ 52 = 2 ^ (d - 1))
      by (rewrite <- Z.pow_add_r by lia; f_equal; lia).
    lia.
Qed.

Lemma round_at_bounds (M k : Z) :
  0 <= k -> M / 2 ^ k <= round_at M k <= M / 2 ^ k + 1.
Proof.
  intros Hk. unfold round_at.
  destruct ((2 ^ k <? 2 * (M mod 2 ^ k))
            || ((2 * (M mod 2 ^ k) =? 2 ^ k) && Z.odd (M / 2 ^ k))); lia.
Qed.

Lemma Zdigits2_pos (p : positive) : Zdigits2 (Z.pos p) = Z.pos (digits2_pos p).
Proof. reflexivity. Qed.

(** The second, normalising, stage of [binary_round_aux]: a mantissa of
    2^53, left by a carry, is halved; the result is a good float of the
    same value, infinite from 2^1024 on. *)
Lemma normalise_spec (m2 e' : Z) :
  0 <= m2 <= 2 ^ 53 -> -1074 <= e' -> (-1074 < e' -> 2 ^ 52 <= m2) ->
  let x :=
    let '(mrs, e2) := shr_fexp prec emax m2 e' loc_Exact in
    match shr_m mrs with
    | Z0 => S754_zero false
    | Zpos m => if e2 <=? emax - prec then S754_finite false m e2
                else S754_infinity false
    | Zneg _ => S754_nan
    end in
  good x /\ val2 x = clip (m2 * 2 ^ (e' + 1074)).
Proof.
  intros [Hm0 Hm53] He Hnorm x. subst x.
  destruct (shr_fexp_spec m2 e' Hm0) as (st & -> & (Hst & _)).
  assert (Hp : 0 < 2 ^ (e' + 1074)) by (apply pow2_pos; lia).
  destruct m2 as [|p|p]; [| |lia].
  - (* zero *)
    rewrite Hst, Z.div_0_l by (apply Z.pow_nonzero; lia).
    split; [exact I|]. unfold clip. simpl val2. rewrite Z.mul_0_l.
    destruct (Z.leb_spec (2 ^ 2098) 0); [|reflexivity].
    pose proof (pow2_pos 2098 ltac:(lia)). lia.
  - rewrite Zdigits2_pos in *.
    pose proof (digits2_pos_bounds p) as [Hlo Hhi].
    set (d := Z.pos (digits2_pos p)) in *.
    assert (Hd : 0 < d) by (subst d; lia).
    destruct (Z.eq_dec (Z.pos p) (2 ^ 53)) as [Htop|Hlt].
    + (* carry: the mantissa is 2^53 *)
      assert (Hd54 : d = 54).
      { apply (digits2_pos_unique p 54); [|lia]. rewrite Htop. split.
        - apply Z.pow_le_mono_r; lia.
        - apply Z.pow_lt_mono_r; lia. }
      rewrite fexp_eq, Hd54 in *.
      replace (Z.max 0 (Z.max (54 + e' - 53) (-1074) - e')) with 1 in * by lia.
      rewrite Z.pow_1_r in Hst. rewrite Hst, Htop.
      replace (2 ^ 53 / 2) with (Z.pos (2 ^ 52)) by reflexivity.
      unfold emax, prec. unfold clip.
      assert (Hw : 2 ^ 53 * 2 ^ (e' + 1074) = Z.pos (2 ^ 52) * 2 ^ (e' + 1 + 1074)).
      { replace (e' + 1 + 1074) with (1 + (e' + 1074)) by lia.
        rewrite (Z.pow_add_r 2 1 (e' + 1074)) by lia.
        change (2 ^ 53) with (Z.pos (2 ^ 52) * 2 ^ 1). ring. }
      destruct (Z.leb_spec (e' + 1) (1024 - 53)) as [Hfin|Hover].
      * split.
        -- cbn [good]. apply bounded_iff. split; [|lia].
           change (Z.pos (digits2_pos (2 ^ 52))) with 53. rewrite fexp_eq. lia.
        -- cbn [val2]. rewrite <- Hw.
           destruct (Z.leb_spec (2 ^ 2098) (2 ^ 53 * 2 ^ (e' + 1074))) as [Hbig|_];
             [|reflexivity].
           assert (2 ^ 53 * 2 ^ (e' + 1074) < 2 ^ 2098).
           { rewrite <- Z.pow_add_r by lia. apply Z.pow_lt_mono_r; lia. }
           lia.
      * split; [exact I|]. cbn [val2].
        destruct (Z.leb_spec (2 ^ 2098) (2 ^ 53 * 2 ^ (e' + 1074))) as [_|Hsmall];
          [reflexivity|].
        assert (2 ^ 2098 <= 2 ^ 53 * 2 ^ (e' + 1074)).
        { rewrite <- Z.pow_add_r by lia. apply Z.pow_le_mono_r; lia. }
        lia.
    + (* no carry *)
      assert (Hp53 : Z.pos p < 2 ^ 53) by lia.
      assert (Hd53 : d <= 53).
      { destruct (Z.le_gt_cases d 53) as [H|H]; [exact H|].
        assert (2 ^ 53 <= 2 ^ (d - 1)) by (apply Z.pow_le_mono_r; lia). lia. }
      assert (Hdnorm : -1074 < e' -> d = 53).
      { intros H. specialize (Hnorm H).
        destruct (Z.eq_dec d 53) as [Heq|Hne]; [exact Heq|].
        assert (2 ^ d <= 2 ^ 52) by (apply Z.pow_le_mono_r; lia). lia. }
      assert (Hcanon : fexp (d + e') = e') by (rewrite fexp_eq; lia).
      rewrite Hcanon in *. rewrite Z.sub_diag, Z.max_id, Z.add_0_r in *.
      rewrite Z.pow_0_r, Z.div_1_r in Hst. rewrite Hst.
      unfold emax, prec, clip.
      destruct (Z.leb_spec e' (1024 - 53)) as [Hfin|Hover].
      * split.
        -- cbn [good]. apply bounded_iff. fold d. split; [exact Hcanon | lia].
        -- cbn [val2].
           destruct (Z.leb_spec (2 ^ 2098) (Z.pos p * 2 ^ (e' + 1074))) as [Hbig|_];
             [|reflexivity].
           assert (Z.pos p * 2 ^ (e' + 1074) < 2 ^ 2098)
             by (apply (mul_pow_lt _ _ 53); lia).
           lia.
      * split; [exact I|]. cbn [val2].
        destruct (Z.leb_spec (2 ^ 2098) (Z.pos p * 2 ^ (e' + 1074))) as [_|Hsmall];
          [reflexivity|].
        assert (2 ^ 2098 <= Z.pos p * 2 ^ (e' + 1074))
          by (apply (mul_pow_ge _ _ 52); [lia | lia | apply Hnorm; lia | lia]).
        lia.
Qed.

(** [binary_round_aux] on an exact positive mantissa that has to be
    shifted right, or not at all: the nearest float. *)
Lemma round_aux_spec (m : positive) (e : Z) :
  let n := fexp (Z.pos (digits2_pos m) + e) - e in
  0 <= n ->
  let x := binary_round_aux prec emax false (Z.pos m) e loc_Exact in
  good x /\ val2 x = clip (round_at (Z.pos m) n * 2 ^ (e + n + 1074)).
Proof.
  intros n Hn x. subst x. unfold binary_round_aux.
  destruct (shr_fexp_spec (Z.pos m) e ltac:(lia)) as (st & -> & Hst).
  rewrite Zdigits2_pos in *. fold n in Hst |- *.
  rewrite Z.max_r in * by exact Hn.
  rewrite (rne_spec (Z.pos m) n st Hn Hst).
  pose proof (quotient_bounds m e Hn) as [[Hq0 Hq53] Hqnorm]. fold n in Hq0, Hq53, Hqnorm.
  pose proof (round_at_bounds (Z.pos m) n Hn) as [Hr1 Hr2].
  apply normalise_spec.
  - lia.
  - subst n. rewrite fexp_eq. lia.
  - intros Hsub. specialize (Hqnorm Hsub). lia.
Qed.

(** Scaling the mantissa and the shift together changes nothing. *)
Lemma round_at_scale (M k c : Z) :
  0 <= k -> 0 <= c -> round_at (M * 2 ^ c) (k + c) = round_at M k.
Proof.
  intros Hk Hc. unfold round_at.
  pose proof (pow2_pos c Hc) as Hpc. pose proof (pow2_pos k Hk) as Hpk.
  rewrite Z.pow_add_r by lia.
  rewrite Z.div_mul_cancel_r by lia.
  rewrite Z.mul_mod_distr_r by lia.
  set (q := M / 2 ^ k). set (rem := M mod 2 ^ k). set (P := 2 ^ k). set (C := 2 ^ c).
  fold C in Hpc.
  assert (H1 : (P * C <? 2 * (rem * C)) = (P <? 2 * rem)).
  { destruct (Z.ltb_spec (P * C) (2 * (rem * C))), (Z.ltb_spec P (2 * rem)); try reflexivity; nia. }
  assert (H2 : (2 * (rem * C) =? P * C) = (2 * rem =? P)).
  { destruct (Z.eqb_spec (2 * (rem * C)) (P * C)), (Z.eqb_spec (2 * rem) P); try reflexivity; nia. }
  now rewrite H1, H2.
Qed.

Lemma log2_digits (p : positive) : Z.log2 (Z.pos p) = Z.pos (digits2_pos p) - 1.
Proof.
  pose proof (digits2_pos_bounds p) as [Hlo Hhi].
  apply Z.log2_unique; [lia|]. split; [exact Hlo|].
  now replace (Z.succ (Z.pos (digits2_pos p) - 1)) with (Z.pos (digits2_pos p)) by lia.
Qed.

(** The same, on the value in units of 2^-2148. *)
Lemma round_aux_rnd (m : positive) (e : Z) :
  -2148 <= e ->
  0 <= fexp (Z.pos (digits2_pos m) + e) - e ->
  let x := binary_round_aux prec emax false (Z.pos m) e loc_Exact in
  good x /\ val2 x = rnd (Z.pos m * 2 ^ (e + 2148)).
Proof.
  intros He Hn x.
  destruct (round_aux_spec m e Hn) as [Hgood Hval]. fold x in Hgood, Hval.
  split; [exact Hgood|]. rewrite Hval. unfold rnd, unclipped.
  set (n := fexp (Z.pos (digits2_pos m) + e) - e) in *.
  assert (Hsh : shift_of (Z.pos m * 2 ^ (e + 2148)) = n + (e + 2148)).
  { unfold shift_of. rewrite Z.log2_mul_pow2, log2_digits by lia.
    subst n. rewrite fexp_eq. lia. }
  rewrite Hsh, round_at_scale by lia.
  replace (n + (e + 2148) - 1074) with (e + n + 1074) by lia. reflexivity.
Qed.

(** *** Rounding is monotone *)

Lemma round_at_mono (M1 M2 k : Z) :
  0 <= k -> M1 <= M2 -> round_at M1 k <= round_at M2 k.
Proof.
  intros Hk HM.
  pose proof (pow2_pos k Hk) as Hpk.
  pose proof (Z.div_le_mono M1 M2 (2 ^ k) Hpk HM) as Hq.
  pose proof (round_at_bounds M1 k Hk) as [_ Hup1].
  pose proof (round_at_bounds M2 k Hk) as [Hlo2 _].
  destruct (Z.eq_dec (M1 / 2 ^ k) (M2 / 2 ^ k)) as [Heq|Hne]; [|lia].
  pose proof (Z.div_mod M1 (2 ^ k) ltac:(lia)) as H1.
  pose proof (Z.div_mod M2 (2 ^ k) ltac:(lia)) as H2.
  assert (Hrem : M1 mod 2 ^ k <= M2 mod 2 ^ k) by (rewrite Heq in H1; lia).
  unfold round_at. rewrite Heq.
  set (q := M2 / 2 ^ k). set (r1 := M1 mod 2 ^ k) in *. set (r2 := M2 mod 2 ^ k) in *.
  destruct (Z.ltb_spec (2 ^ k) (2 * r1)), (Z.ltb_spec (2 ^ k) (2 * r2)),
           (Z.eqb_spec (2 * r1) (2 ^ k)), (Z.eqb_spec (2 * r2) (2 ^ k)),
           (Z.odd q); cbn [orb andb]; lia.
Qed.

Lemma shift_of_ge (V : Z) : 1074 <= shift_of V.
Proof. unfold shift_of. lia. Qed.

Lemma unclipped_mono (V1 V2 : Z) :
  0 <= V1 <= V2 -> unclipped V1 <= unclipped V2.
Proof.
  intros [H0 H12]. unfold unclipped.
  pose proof (shift_of_ge V1) as Hs1. pose proof (shift_of_ge V2) as Hs2.
  assert (Hsh : shift_of V1 <= shift_of V2).
  { unfold shift_of. pose proof (Z.log2_le_mono V1 V2 H12). lia. }
  destruct (Z.eq_dec (shift_of V1) (shift_of V2)) as [Heq|Hne].
  - rewrite Heq. apply Z.mul_le_mono_nonneg_r.
    + apply Z.lt_le_incl, pow2_pos. lia.
    + apply round_at_mono; lia.
  - set (s1 := shift_of V1) in *. set (s2 := shift_of V2) in *.
    assert (Hlt : s1 < s2) by lia.
    assert (Hs2def : s2 = Z.log2 V2 + 1 - 53) by (subst s2; unfold shift_of in *; lia).
    assert (HV2 : 0 < V2).
    { destruct (Z.eq_dec V2 0) as [->|]; [|lia]. simpl in Hs2def. lia. }
    pose proof (Z.log2_spec V2 HV2) as [HV2lo _].
    (* the larger value keeps at least 2^52 *)
    assert (Hq2 : 2 ^ 52 <= round_at V2 s2).
    { pose proof (round_at_bounds V2 s2 ltac:(lia)) as [Hlo _].
      assert (2 ^ 52 <= V2 / 2 ^ s2); [|lia].
      apply Z.div_le_lower_bound; [apply pow2_pos; lia|].
      rewrite <- Z.pow_add_r by lia.
      replace (s2 + 52) with (Z.log2 V2) by lia. exact HV2lo. }
    (* the smaller value keeps at most 2^53 *)
    assert (Hq1 : round_at V1 s1 <= 2 ^ 53).
    { pose proof (round_at_bounds V1 s1 ltac:(lia)) as [_ Hup].
      assert (V1 / 2 ^ s1 < 2 ^ 53); [|lia].
      apply Z.div_lt_upper_bound; [apply pow2_pos; lia|].
      rewrite <- Z.pow_add_r by lia.
      destruct (Z.eq_dec V1 0) as [->|HV1]; [apply pow2_pos; lia|].
      pose proof (Z.log2_spec V1 ltac:(lia)) as [_ HV1hi].
      eapply Z.lt_le_trans; [exact HV1hi|].
      apply Z.pow_le_mono_r; [lia|]. subst s1. unfold shift_of. lia. }
    pose proof (pow2_pos (s1 - 1074) ltac:(lia)) as Hp1.
    pose proof (pow2_pos (s2 - 1074) ltac:(lia)) as Hp2.
    assert (Hmid : 2 ^ 53 * 2 ^ (s1 - 1074) <= 2 ^ 52 * 2 ^ (s2 - 1074)).
    { rewrite <- !Z.pow_add_r by lia. apply Z.pow_le_mono_r; lia. }
    assert (round_at V1 s1 * 2 ^ (s1 - 1074) <= 2 ^ 53 * 2 ^ (s1 - 1074))
      by (apply Z.mul_le_mono_nonneg_r; lia).
    assert (2 ^ 52 * 2 ^ (s2 - 1074) <= round_at V2 s2 * 2 ^ (s2 - 1074))
      by (apply Z.mul_le_mono_nonneg_r; lia).
    lia.
Qed.

Lemma clip_mono (w1 w2 : Z) : w1 <= w2 -> clip w1 <= clip w2.
Proof.
  intros Hw. unfold clip, INF.
  assert (2 ^ 2098 < 2 ^ 2200) by (apply Z.pow_lt_mono_r; lia).
  destruct (Z.leb_spec (2 ^ 2098) w1), (Z.leb_spec (2 ^ 2098) w2); lia.
Qed.

Lemma rnd_mono (V1 V2 : Z) : 0 <= V1 <= V2 -> rnd V1 <= rnd V2.
Proof. intros H. unfold rnd. apply clip_mono, unclipped_mono, H. Qed.


(** *** Comparison and values *)

Lemma bounded_facts (m : positive) (e : Z) :
  bounded prec emax m e = true ->
  -1074 <= e <= 971 /\ Z.pos m < 2 ^ 53 /\ (-1074 < e -> 2 ^ 52 <= Z.pos m).
Proof.
  intros Hb. apply bounded_iff in Hb. destruct Hb as [Hc He].
  rewrite fexp_eq in Hc.
  pose proof (digits2_pos_bounds m) as [Hlo Hhi].
  set (d := Z.pos (digits2_pos m)) in *.
  assert (Hd : 0 < d) by (subst d; lia).
  split; [lia|]. split.
  - assert (2 ^ d <= 2 ^ 53) by (apply Z.pow_le_mono_r; lia). lia.
  - intros Hsub. replace 52 with (d - 1) by lia. exact Hlo.
Qed.

Lemma val2_finite_bounds (m : positive) (e : Z) :
  bounded prec emax m e = true ->
  0 < val2 (S754_finite false m e) < 2 ^ 2098.
Proof.
  intros Hb. destruct (bounded_facts m e Hb) as (He & Hm & _). cbn [val2].
  pose proof (pow2_pos (e + 1074) ltac:(lia)).
  split; [lia|]. apply (mul_pow_lt _ _ 53); lia.
Qed.

Lemma INF_gt : 2 ^ 2098 < INF.
Proof. unfold INF. apply Z.pow_lt_mono_r; lia. Qed.

Lemma val2_good_range (x : spec_float) : good x -> 0 <= val2 x <= INF.
Proof.
  pose proof INF_gt. pose proof (pow2_pos 2098 ltac:(lia)).
  destruct x as [[|]|[|]| |[|] m e]; cbn [good]; intros Hg; try contradiction;
    cbn [val2]; try lia.
  pose proof (val2_finite_bounds m e Hg). cbn [val2] in *. lia.
Qed.

(** On good floats the comparison follows the values. *)
Lemma leb_of_val2 (x y : spec_float) :
  good x -> good y -> val2 x <= val2 y -> SFleb x y = true.
Proof.
  pose proof INF_gt as HINF. pose proof (pow2_pos 2098 ltac:(lia)) as H2098.
  destruct x as [[|]|[|]| |[|] m1 e1]; cbn [good]; intros Hx; try contradiction;
  destruct y as [[|]|[|]| |[|] m2 e2]; cbn [good]; intros Hy; try contradiction;
    intros Hle; try reflexivity.
  - pose proof (val2_finite_bounds m2 e2 Hy). cbn [val2] in *. lia.
  - pose proof (val2_finite_bounds m1 e1 Hx). cbn [val2] in *. lia.
  - destruct (bounded_facts m1 e1 Hx) as (He1 & Hm1 & Hn1).
    destruct (bounded_facts m2 e2 Hy) as (He2 & Hm2 & Hn2).
    cbn [val2] in Hle. unfold SFleb, SFcompare.
    destruct (Z.compare_spec e1 e2) as [Heq|Hlt|Hgt]; [|reflexivity|].
    + subst e2. pose proof (pow2_pos (e1 + 1074) ltac:(lia)).
      assert (Hm : (m1 <= m2)%positive) by (apply Pos2Z.pos_le_pos; nia).
      change (Pos.compare_cont Eq m1 m2) with (Pos.compare m1 m2).
      unfold Pos.le in Hm. destruct (m1 ?= m2)%positive; try reflexivity. now elim Hm.
    + exfalso.
      assert (2 ^ 53 * 2 ^ (e2 + 1074) <= 2 ^ 52 * 2 ^ (e1 + 1074))
        by (rewrite <- !Z.pow_add_r by lia; apply Z.pow_le_mono_r; lia).
      pose proof (pow2_pos (e1 + 1074) ltac:(lia)).
      pose proof (pow2_pos (e2 + 1074) ltac:(lia)).
      specialize (Hn1 ltac:(lia)). nia.
Qed.

Lemma digits_mul (m1 m2 : positive) :
  Z.pos (digits2_pos m1) + Z.pos (digits2_pos m2) - 1
  <= Z.pos (digits2_pos (m1 * m2)).
Proof.
  pose proof (digits2_pos_bounds m1) as [Hlo1 _].
  pose proof (digits2_pos_bounds m2) as [Hlo2 _].
  pose proof (digits2_pos_bounds (m1 * m2)) as [_ Hhi].
  set (d1 := Z.pos (digits2_pos m1)) in *. set (d2 := Z.pos (digits2_pos m2)) in *.
  set (d := Z.pos (digits2_pos (m1 * m2))) in *.
  assert (0 < d1 /\ 0 < d2 /\ 0 < d) as (H1 & H2 & H3) by (subst d1 d2 d; lia).
  destruct (Z.le_gt_cases (d1 + d2 - 1) d) as [H|H]; [exact H|exfalso].
  assert (Hprod : 2 ^ (d1 - 1) * 2 ^ (d2 - 1) <= Z.pos (m1 * m2)).
  { rewrite Pos2Z.inj_mul. apply Z.mul_le_mono_nonneg; try lia;
      apply Z.lt_le_incl, pow2_pos; lia. }
  rewrite <- Z.pow_add_r in Hprod by lia.
  assert (2 ^ d <= 2 ^ (d1 - 1 + (d2 - 1))) by (apply Z.pow_le_mono_r; lia).
  lia.
Qed.

(** The product of two good floats, zero times infinity apart, is the good
    float nearest to the product of their values. *)
Lemma SFmul_val (x y : spec_float) :
  good x -> good y ->
  (val2 x = 0 -> val2 y <> INF) -> (val2 y = 0 -> val2 x <> INF) ->
  good (SFmul prec emax x y) /\
  val2 (SFmul prec emax x y) = mulv (val2 x) (val2 y).
Proof.
  pose proof INF_gt as HINF. pose proof (pow2_pos 2098 ltac:(lia)) as H2098.
  assert (HI0 : (INF =? 0) = false) by (apply Z.eqb_neq; lia).
  destruct x as [[|]|[|]| |[|] m1 e1]; cbn [good]; intros Hx; try contradiction;
  destruct y as [[|]|[|]| |[|] m2 e2]; cbn [good]; intros Hy; try contradiction;
    cbn [val2]; intros Hxy Hyx.
  - split; [exact I|reflexivity].
  - now elim Hxy.
  - split; [exact I|]. unfold mulv. rewrite Z.eqb_refl. reflexivity.
  - now elim Hyx.
  - split; [exact I|]. unfold mulv. rewrite HI0, Z.eqb_refl. reflexivity.
  - split; [exact I|]. pose proof (val2_finite_bounds m2 e2 Hy) as Hv. cbn [val2] in Hv.
    unfold mulv. rewrite HI0, Z.eqb_refl.
    destruct (Z.eqb_spec (Z.pos m2 * 2 ^ (e2 + 1074)) 0); [lia | reflexivity].
  - split; [exact I|]. unfold mulv. rewrite Z.eqb_refl, orb_true_r. reflexivity.
  - split; [exact I|]. pose proof (val2_finite_bounds m1 e1 Hx) as Hv. cbn [val2] in Hv.
    unfold mulv. rewrite HI0, Z.eqb_refl, orb_true_r.
    destruct (Z.eqb_spec (Z.pos m1 * 2 ^ (e1 + 1074)) 0); [lia | reflexivity].
  - pose proof (val2_finite_bounds m1 e1 Hx) as Hv1.
    pose proof (val2_finite_bounds m2 e2 Hy) as Hv2. cbn [val2] in Hv1, Hv2.
    destruct (bounded_facts m1 e1 Hx) as (He1 & _ & _).
    destruct (bounded_facts m2 e2 Hy) as (He2 & _ & _).
    pose proof (proj1 (bounded_iff m1 e1) Hx) as [Hc1 _].
    pose proof (proj1 (bounded_iff m2 e2) Hy) as [Hc2 _].
    rewrite fexp_eq in Hc1, Hc2.
    pose proof (digits_mul m1 m2) as Hd.
    assert (Hn : 0 <= fexp (Z.pos (digits2_pos (m1 * m2)) + (e1 + e2)) - (e1 + e2))
      by (rewrite fexp_eq; lia).
    destruct (round_aux_rnd (m1 * m2) (e1 + e2) ltac:(lia) Hn) as [Hgood Hval].
    cbn [SFmul xorb]. split; [exact Hgood|]. rewrite Hval.
    unfold mulv.
    destruct (Z.eqb_spec (Z.pos m1 * 2 ^ (e1 + 1074)) 0); [lia|].
    destruct (Z.eqb_spec (Z.pos m2 * 2 ^ (e2 + 1074)) 0); [lia|].
    destruct (Z.eqb_spec (Z.pos m1 * 2 ^ (e1 + 1074)) INF); [lia|].
    destruct (Z.eqb_spec (Z.pos m2 * 2 ^ (e2 + 1074)) INF); [lia|].
    cbn [orb]. f_equal.
    replace (e1 + e2 + 2148) with ((e1 + 1074) + (e2 + 1074)) by lia.
    rewrite Z.pow_add_r, Pos2Z.inj_mul by lia. ring.
Qed.

Lemma rnd_range (V : Z) : 0 <= V -> 0 <= rnd V <= INF.
Proof.
  intros HV. unfold rnd, unclipped, clip.
  pose proof INF_gt. pose proof (pow2_pos 2098 ltac:(lia)).
  pose proof (shift_of_ge V).
  pose proof (round_at_bounds V (shift_of V) ltac:(lia)) as [Hlo _].
  assert (0 <= V / 2 ^ shift_of V) by (apply Z.div_pos; [lia | apply pow2_pos; lia]).
  pose proof (pow2_pos (shift_of V - 1074) ltac:(lia)).
  destruct (Z.leb_spec (2 ^ 2098) (round_at V (shift_of V) * 2 ^ (shift_of V - 1074)));
    [lia | nia].
Qed.

Lemma mulv_mono (a1 a2 b1 b2 : Z) :
  0 <= a1 <= a2 -> a2 <= INF -> 0 <= b1 <= b2 -> b2 <= INF ->
  mulv a1 b1 <= mulv a2 b2.
Proof.
  intros Ha Ha2 Hb Hb2. pose proof INF_gt. pose proof (pow2_pos 2098 ltac:(lia)).
  unfold mulv.
  destruct (Z.eqb_spec a1 0), (Z.eqb_spec b1 0), (Z.eqb_spec a2 0), (Z.eqb_spec b2 0);
    cbn [orb]; try lia;
  destruct (Z.eqb_spec a1 INF), (Z.eqb_spec b1 INF), (Z.eqb_spec a2 INF), (Z.eqb_spec b2 INF);
    cbn [orb]; try lia;
  try (pose proof (rnd_range (a2 * b2) ltac:(nia)); lia);
  try (pose proof (rnd_range (a1 * b1) ltac:(nia)); lia).
  apply rnd_mono. nia.
Qed.

(** *** Conversion of a non-negative integer *)

Lemma iter_xO (m d : positive) :
  Z.pos (Pos.iter xO m d) = Z.pos m * 2 ^ Z.pos d.
Proof.
  induction d as [|d IH] using Pos.peano_ind.
  - simpl. lia.
  - rewrite Pos.iter_succ, Pos2Z.inj_xO, IH, Pos2Z.inj_succ, Z.pow_succ_r by lia. ring.
Qed.

(** The float of an integer that is not negative is the good float nearest
    to it. *)
Lemma round_int_val (z : Z) :
  0 <= z ->
  good (binary_normalize prec emax z 0 false) /\
  val2 (binary_normalize prec emax z 0 false) = rnd (z * 2 ^ 2148).
Proof.
  intros Hz. destruct z as [|m|m]; [split; [exact I | reflexivity] | | lia].
  cbn [binary_normalize]. unfold binary_round, shl_align. fold fexp.
  pose proof (digits2_pos_bounds m) as [Hlo Hhi].
  set (d := Z.pos (digits2_pos m)) in *.
  assert (Hd : 0 < d) by (subst d; lia).
  assert (Hf : fexp (d + 0) - 0 = d - 53) by (rewrite fexp_eq; lia).
  destruct (fexp (d + 0) - 0) as [|p|p] eqn:Hshift.
  - (* exactly 53 digits *)
    destruct (round_aux_rnd m 0 ltac:(lia)) as [Hgood Hval];
      [fold d; rewrite fexp_eq; lia|].
    split; [exact Hgood|]. rewrite Hval. reflexivity.
  - (* more than 53 digits *)
    destruct (round_aux_rnd m 0 ltac:(lia)) as [Hgood Hval];
      [fold d; rewrite fexp_eq; lia|].
    split; [exact Hgood|]. rewrite Hval. reflexivity.
  - (* fewer than 53 digits: the mantissa is aligned first *)
    assert (Hp : Z.pos p = 53 - d) by lia.
    assert (Hmz : Z.pos (Pos.iter xO m p) = Z.pos m * 2 ^ (53 - d))
      by (rewrite iter_xO, Hp; reflexivity).
    assert (Hdz : Z.pos (digits2_pos (Pos.iter xO m p)) = 53).
    { apply digits2_pos_unique; [|lia]. rewrite Hmz.
      pose proof (pow2_pos (53 - d) ltac:(lia)).
      assert (2 ^ (d - 1) * 2 ^ (53 - d) = 2 ^ (53 - 1))
        by (rewrite <- Z.pow_add_r by lia; f_equal; lia).
      assert (2 ^ d * 2 ^ (53 - d) = 2 ^ 53)
        by (rewrite <- Z.pow_add_r by lia; f_equal; lia).
      split; nia. }
    rewrite fexp_eq.
    replace (Z.max (d + 0 - 53) (-1074)) with (d - 53) by lia.
    destruct (round_aux_rnd (Pos.iter xO m p) (d - 53) ltac:(lia)) as [Hgood Hval];
      [rewrite Hdz, fexp_eq; lia|].
    split; [exact Hgood|]. rewrite Hval. f_equal. rewrite Hmz.
    rewrite <- Z.mul_assoc, <- Z.pow_add_r by lia. do 2 f_equal. lia.
Qed.

Lemma mulv_range (a b : Z) :
  0 <= a <= INF -> 0 <= b <= INF -> 0 <= mulv a b <= INF.
Proof.
  intros Ha Hb. pose proof INF_gt. pose proof (pow2_pos 2098 ltac:(lia)).
  unfold mulv.
  destruct ((a =? 0) || (b =? 0)); [lia|].
  destruct ((a =? INF) || (b =? INF)); [lia|].
  apply rnd_range. nia.
Qed.

(** A good float whose value is infinite is infinity. *)
Lemma good_infinite (x : spec_float) :
  good x -> INF <= val2 x -> x = S754_infinity false.
Proof.
  pose proof INF_gt. pose proof (pow2_pos 2098 ltac:(lia)).
  destruct x as [[|]|[|]| |[|] m e]; cbn [good]; intros Hg; try contradiction;
    cbn [val2]; intros Hv; try reflexivity; try lia.
  pose proof (val2_finite_bounds m e Hg) as Hb. cbn [val2] in Hb. lia.
Qed.

(** *** The conversion and the products of the foot model *)

(** Python converts the integers up to [max_int], and raises beyond. *)
Lemma of_int_ok (z : Z) :
  0 <= z <= max_int ->
  exists x, of_int z = Ok x /\ good x /\ val2 x = rnd (z * 2 ^ 2148).
Proof.
  intros [H0 Hmax]. destruct (round_int_val z H0) as [Hgood Hval].
  assert (Hlt : rnd (z * 2 ^ 2148) < INF).
  { assert (Htop : (rnd (max_int * 2 ^ 2148) <? INF) = true) by (vm_compute; reflexivity).
    apply Z.ltb_lt in Htop. pose proof (pow2_pos 2148 ltac:(lia)).
    pose proof (rnd_mono (z * 2 ^ 2148) (max_int * 2 ^ 2148) ltac:(nia)). lia. }
  unfold of_int, round_int.
  destruct (binary_normalize prec emax z 0 false) as [b|b| |b m e] eqn:Hx;
    try (eexists; split; [reflexivity|]; split; assumption).
  cbn [val2] in Hval. lia.
Qed.

Lemma of_int_overflow (z : Z) :
  max_int < z -> of_int z = Raise OverflowError_int_to_float.
Proof.
  intros Hbig. assert (H0 : 0 <= z) by (unfold max_int in Hbig; pose proof (pow2_pos 970 ltac:(lia));
    assert (2 ^ 970 < 2 ^ 1024) by (apply Z.pow_lt_mono_r; lia); lia).
  destruct (round_int_val z H0) as [Hgood Hval].
  assert (Hinf : INF <= rnd (z * 2 ^ 2148)).
  { assert (Htop : (INF <=? rnd ((max_int + 1) * 2 ^ 2148)) = true) by (vm_compute; reflexivity).
    apply Z.leb_le in Htop. pose proof (pow2_pos 2148 ltac:(lia)).
    assert (0 <= max_int + 1).
    { unfold max_int. assert (2 ^ 970 < 2 ^ 1024) by (apply Z.pow_lt_mono_r; lia). lia. }
    pose proof (rnd_mono ((max_int + 1) * 2 ^ 2148) (z * 2 ^ 2148) ltac:(nia)). lia. }
  rewrite <- Hval in Hinf. unfold of_int, round_int.
  now rewrite (good_infinite _ Hgood Hinf).
Qed.

Lemma two_thirds_good : good two_thirds /\ 0 < val2 two_thirds < 2 ^ 2098.
Proof.
  assert (Heq : two_thirds = S754_finite false 6004799503160661 (-53))
    by (vm_compute; reflexivity).
  rewrite Heq. assert (Hb : bounded prec emax 6004799503160661 (-53) = true)
    by (vm_compute; reflexivity).
  split; [exact Hb | now apply val2_finite_bounds].
Qed.

Lemma centi_35_good : good (centi 35) /\ 0 < val2 (centi 35) < 2 ^ 2098.
Proof.
  assert (Heq : centi 35 = S754_finite false 6305039478318694 (-54))
    by (vm_compute; reflexivity).
  rewrite Heq. assert (Hb : bounded prec emax 6305039478318694 (-54) = true)
    by (vm_compute; reflexivity).
  split; [exact Hb | now apply val2_finite_bounds].
Qed.

(** The product of a positive finite constant and a good float. *)
Lemma mul_const_val (k x : spec_float) :
  good k -> 0 < val2 k < 2 ^ 2098 -> good x ->
  good (mul k x) /\ val2 (mul k x) = mulv (val2 k) (val2 x).
Proof.
  intros Hk Hv Hx. pose proof INF_gt. apply SFmul_val; try assumption; lia.
Qed.


End RoundFacts.

(** ** The foot model: [get_area_of_foot] *)

Module FootFacts.
Import App Spec Rounding RoundFacts Examples.

(** The formula of the specification does not decrease from 2 on. *)
Lemma footArea_monotone (s1 s2 : Q) :
  (2 <= s1 -> s1 <= s2 -> footArea s1 <= footArea s2)%Q.
Proof.
  intros H1 H2. unfold footArea, footWidth, footLength. nra.
Qed.

(** The area the code returns is a good float, of the value [area_val]
    gives. *)
Lemma get_area_of_foot_val (shoe_size : Z) (a : Float.float) :
  2 <= shoe_size -> get_area_of_foot shoe_size = Ok a ->
  good a /\ val2 a = area_val (shoe_size - 2).
Proof.
  intros Hsize Hrun. unfold get_area_of_foot in Hrun.
  destruct (Float.of_int (shoe_size - 2)) as [x|] eqn:Hx; [|discriminate].
  cbn [bindR] in Hrun. injection Hrun as <-.
  assert (Hgx : good x /\ val2 x = rnd ((shoe_size - 2) * 2 ^ 2148)).
  { destruct (round_int_val (shoe_size - 2) ltac:(lia)) as [Hg Hv].
    unfold Float.of_int, Float.round_int in Hx.
    destruct (binary_normalize Float.prec Float.emax (shoe_size - 2) 0 false);
      try discriminate; injection Hx as <-; split; assumption. }
  destruct Hgx as [Hgx Hvx].
  destruct two_thirds_good as [Hgk Hvk]. destruct centi_35_good as [Hgc Hvc].
  fold two_thirds.
  destruct (mul_const_val two_thirds x Hgk Hvk Hgx) as [Hgl Hvl].
  set (foot_length := Float.mul two_thirds x) in *.
  destruct (mul_const_val (Float.centi 35) foot_length Hgc Hvc Hgl) as [Hgw Hvw].
  set (foot_width := Float.mul (Float.centi 35) foot_length) in *.
  pose proof INF_gt as HINF.
  pose proof (val2_good_range x Hgx) as Hrx.
  assert (Hne : val2 (Float.centi 35) <> 0 /\ val2 (Float.centi 35) <> INF) by lia.
  destruct (SFmul_val foot_length foot_width Hgl Hgw) as [Hga Hva].
  - intros Hzero. rewrite Hvw, Hzero. unfold mulv.
    rewrite Z.eqb_refl, orb_true_r. lia.
  - intros Hzero Hinf. rewrite Hvw, Hinf in Hzero. unfold mulv in Hzero.
    destruct Hne as [Hc0 HcI].
    destruct (Z.eqb_spec (val2 (Float.centi 35)) 0); [contradiction|].
    destruct (Z.eqb_spec INF 0); [lia|].
    rewrite Z.eqb_refl, orb_true_r in Hzero. cbn [orb] in Hzero. lia.
  - split; [exact Hga|]. etransitivity; [exact Hva|].
    rewrite Hvw, Hvl, Hvx. reflexivity.
Qed.

(** That value does not decrease with the shoe size. *)
Lemma area_val_mono (z1 z2 : Z) :
  0 <= z1 <= z2 -> area_val z1 <= area_val z2.
Proof.
  intros Hz. unfold area_val.
  pose proof (pow2_pos 2148 ltac:(lia)) as Hp.
  pose proof INF_gt as HINF.
  destruct two_thirds_good as [_ Hvk]. destruct centi_35_good as [_ Hvc].
  pose proof (rnd_mono (z1 * 2 ^ 2148) (z2 * 2 ^ 2148) ltac:(nia)) as Hx.
  pose proof (rnd_range (z1 * 2 ^ 2148) ltac:(nia)) as Hr1.
  pose proof (rnd_range (z2 * 2 ^ 2148) ltac:(nia)) as Hr2.
  set (x1 := rnd (z1 * 2 ^ 2148)) in *. set (x2 := rnd (z2 * 2 ^ 2148)) in *.
  pose proof (mulv_mono (val2 two_thirds) (val2 two_thirds) x1 x2
                ltac:(lia) ltac:(lia) ltac:(lia) ltac:(lia)) as Hl.
  pose proof (mulv_range (val2 two_thirds) x1 ltac:(lia) ltac:(lia)) as Hl1.
  pose proof (mulv_range (val2 two_thirds) x2 ltac:(lia) ltac:(lia)) as Hl2.
  set (l1 := mulv (val2 two_thirds) x1) in *. set (l2 := mulv (val2 two_thirds) x2) in *.
  pose proof (mulv_mono (val2 (Float.centi 35)) (val2 (Float.centi 35)) l1 l2
                ltac:(lia) ltac:(lia) ltac:(lia) ltac:(lia)) as Hw.
  pose proof (mulv_range (val2 (Float.centi 35)) l1 ltac:(lia) ltac:(lia)) as Hw1.
  pose proof (mulv_range (val2 (Float.centi 35)) l2 ltac:(lia) ltac:(lia)) as Hw2.
  apply mulv_mono; lia.
Qed.

(** The function returns on every shoe size from 2 up to the largest
    integer Python converts to a float, and raises beyond. *)
Lemma get_area_of_foot_ok (shoe_size : Z) :
  2 <= shoe_size -> shoe_size - 2 <= max_int ->
  exists a, get_area_of_foot shoe_size = Ok a.
Proof.
  intros Hlo Hhi.
  destruct (of_int_ok (shoe_size - 2) ltac:(lia)) as (x & Hx & _).
  unfold get_area_of_foot. rewrite Hx. cbn [bindR]. eexists. reflexivity.
Qed.

Lemma get_area_of_foot_overflow (shoe_size : Z) :
  max_int < shoe_size - 2 ->
  get_area_of_foot shoe_size = Raise OverflowError_int_to_float.
Proof.
  intros Hbig. unfold get_area_of_foot.
  now rewrite (of_int_overflow (shoe_size - 2) Hbig).
Qed.

Lemma range_In (lo : Z) (n : nat) (s : Z) :
  lo <= s < lo + Z.of_nat n -> In s (range lo n).
Proof.
  intros Hs. unfold range. apply in_map_iff.
  exists (Z.to_nat (s - lo)). split; [lia|]. apply in_seq. lia.
Qed.

(** On the shoe sizes 2 to 1000 the code computes the formula of the
    specification within 2^-50 of its value. *)
Lemma get_area_of_foot_close :
  forallb
    (fun s => match get_area_of_foot s with
              | Ok a => close_to a (footArea (inject_Z s))
              | Raise _ => false
              end)
    (range 2 999) = true.
Proof. vm_compute. reflexivity. Qed.

(** C10. The area does not decrease with the shoe size from 2 on: in
    exact arithmetic, for the formula of the specification; and in binary64
    arithmetic, for the floats [get_area_of_foot] returns, on all the
    integer sizes on which it returns, those up to the largest integer that
    converts to a float.  On the sizes 2 to 1000 the float is within a
    relative 2^-50 of the formula. *)
Theorem foot_area_monotone :
  (forall s1 s2 : Q, (2 <= s1 -> s1 <= s2 -> footArea s1 <= footArea s2)%Q) /\
  (forall s1 s2 : Z,
     2 <= s1 -> s1 <= s2 -> s2 - 2 <= max_int ->
     exists a1 a2,
       get_area_of_foot s1 = Ok a1 /\ get_area_of_foot s2 = Ok a2 /\
       Float.leb a1 a2 = true) /\
  (forall s : Z,
     max_int < s - 2 -> get_area_of_foot s = Raise OverflowError_int_to_float) /\
  (forall s : Z,
     2 <= s <= 1000 ->
     exists a, get_area_of_foot s = Ok a /\ close_to a (footArea (inject_Z s)) = true).
Proof.
  split; [exact footArea_monotone|]. split; [|split].
  - intros s1 s2 H1 H12 H2.
    destruct (get_area_of_foot_ok s1 H1 ltac:(lia)) as [a1 Ha1].
    destruct (get_area_of_foot_ok s2 ltac:(lia) H2) as [a2 Ha2].
    exists a1, a2. split; [exact Ha1|]. split; [exact Ha2|].
    destruct (get_area_of_foot_val s1 a1 H1 Ha1) as [Hg1 Hv1].
    destruct (get_area_of_foot_val s2 a2 ltac:(lia) Ha2) as [Hg2 Hv2].
    apply leb_of_val2; [exact Hg1 | exact Hg2 |].
    rewrite Hv1, Hv2. apply area_val_mono. lia.
  - exact get_area_of_foot_overflow.
  - intros s Hs.
    pose proof get_area_of_foot_close as Hclose. rewrite forallb_forall in Hclose.
    specialize (Hclose s (range_In 2 999 s ltac:(lia))).
    destruct (get_area_of_foot s) as [a|]; [|discriminate].
    exists a. split; [reflexivity | exact Hclose].
Qed.

Lemma foot_area_monotone_witness :
  (footArea 30 <= footArea (85 # 2))%Q /\
  (exists a1 a2,
     get_area_of_foot 30 = Ok a1 /\ get_area_of_foot 42 = Ok a2 /\
     Float.leb a1 a2 = true) /\
  get_area_of_foot (2 ^ 1024) = Raise OverflowError_int_to_float /\
  (exists a,
     get_area_of_foot 42 = Ok a /\ close_to a (footArea (inject_Z 42)) = true).
Proof.
  destruct foot_area_monotone as (Hexact & Hcode & Hover & Hclose).
  split; [|split; [|split]].
  - apply Hexact; unfold Qle; simpl; lia.
  - apply Hcode; try lia. vm_compute. discriminate.
  - apply Hover. vm_compute. reflexivity.
  - apply Hclose. lia.
Defined.

(** The example of the specification: at size 42 the length is 26.67 cm,
    the area 248.9 square centimetres, and the estimate before the offset
    90 pieces. *)
Example foot_area_size_42 :
  footArea 42 == (2240 # 9) /\
  get_area_of_foot 42 = Ok (S754_finite false 8756999275442629 (-45)) /\
  base_num_legos 42 = Ok 90.
Proof. split; [reflexivity|]. split; vm_compute; reflexivity. Qed.

(** The largest size on which the function returns, where the area is
    infinite, and the first on which it raises. *)
Example foot_area_largest_size :
  get_area_of_foot (max_int + 2) = Ok (S754_infinity false) /\
  get_area_of_foot (max_int + 3) = Raise OverflowError_int_to_float.
Proof. split; vm_compute; reflexivity. Qed.

End FootFacts.

(** ** The random state through a trial *)

Module RandomFacts.
Import Numpy Pandas App Spec Vocabulary SamplingFacts MonadFacts Examples.











End RandomFacts.

(** ** What a trial needs and what it returns *)

Module TrialFacts.
Import Numpy Pandas App Spec Vocabulary SamplingFacts MonadFacts RandomFacts.
Import Examples.

(** The calls of a successful trial, one by one. *)
Lemma trial_inv (shoe_size : Z) (working : list lego) (g g' : rng) (o : option step) :
  get_legos_stepped_on true shoe_size working g = Ok (o, g') ->
  exists n g1 base g2 trophy,
    get_num_legos_stepped_on shoe_size g = Ok (n, g1) /\
    sample working n g1 = Ok (base, g2) /\
    sample (filter is_trophy working) 1 g2 = Ok ([trophy], g') /\
    o = Some {| announced := n + 1; legos_stepped_on := base ++ [trophy] |}.
Proof.
  intros Hrun. unfold get_legos_stepped_on in Hrun.
  apply bind_ok in Hrun. destruct Hrun as (n & g1 & Hnum & Hrun).
  apply bind_ok in Hrun. destruct Hrun as (base & g2 & Hbase & Hrun).
  apply bind_ok in Hrun. destruct Hrun as (token & g3 & Htoken & Hret).
  apply ret_ok in Hret. destruct Hret as [-> ->].
  pose proof (sample_inv _ _ _ _ _ Htoken) as (_ & Hone & _).
  destruct (StepFacts.length_one token Hone) as [trophy ->].
  exists n, g1, base, g2, trophy. repeat split; assumption.
Qed.

Lemma trophy_exists (working : list lego) :
  (exists r, In r working /\ is_trophy r = true) <-> filter is_trophy working <> [].
Proof.
  split.
  - intros (r & Hr & Ht) Hnil.
    assert (Hin : In r (filter is_trophy working)) by (apply filter_In; now split).
    rewrite Hnil in Hin. contradiction.
  - intros Hne. destruct (filter is_trophy working) as [|r l] eqn:Hf; [now elim Hne|].
    exists r. apply filter_In. rewrite Hf. now left.
Qed.

(** X2. Once the estimate [n] is known, the trial succeeds exactly when
    [n] is between 0 and the number of rows and some row is an eligible
    trophy. *)
Theorem step_on_succeeds_iff :
  forall (shoe_size : Z) (working : list lego) (g g1 : rng) (n : Z),
    get_num_legos_stepped_on shoe_size g = Ok (n, g1) ->
    ((exists s g', get_legos_stepped_on true shoe_size working g = Ok (Some s, g'))
     <->
     (0 <= n <= Z.of_nat (length working) /\
      exists r, In r working /\ is_trophy r = true)).
Proof.
  intros shoe_size working g g1 n Hnum. split.
  - intros (s & g' & Hrun).
    destruct (trial_inv _ _ _ _ _ Hrun) as (n' & g1' & base & g2 & trophy & Hn & Hb & Ht & _).
    rewrite Hnum in Hn. injection Hn as <- <-.
    apply sample_inv in Hb. destruct Hb as (Hrange & _ & _).
    split; [exact Hrange|]. apply trophy_exists. intros Hnil.
    rewrite Hnil in Ht. rewrite sample_too_many in Ht by (simpl; lia). discriminate.
  - intros [Hrange Htrophy]. apply trophy_exists in Htrophy.
    destruct (sample_ok working n g1 Hrange) as (base & g2 & Hb & _ & _).
    destruct (sample_ok (filter is_trophy working) 1 g2) as (token & g3 & Ht & _ & _).
    { destruct (filter is_trophy working); [now elim Htrophy | simpl; lia]. }
    eexists. eexists. unfold get_legos_stepped_on.
    rewrite (bind_step _ _ g g1 n Hnum), (bind_step _ _ g1 g2 base Hb),
            (bind_step _ _ g2 g3 token Ht).
    reflexivity.
Qed.

Lemma step_on_succeeds_iff_witness :
  (exists s g',
     get_legos_stepped_on true 2 pile5 (rng_of [13; 4; 0; 2; 5]%nat) = Ok (Some s, g'))
  <->
  (0 <= 3 <= Z.of_nat (length pile5) /\
   exists r, In r pile5 /\ is_trophy r = true).
Proof.
  eapply (step_on_succeeds_iff 2 pile5 (rng_of [13; 4; 0; 2; 5]%nat) _ 3).
  lazy. reflexivity.
Defined.

(** X3. On the shoe sizes of the select box a pile of at least 134 rows
    with an eligible trophy suffices: the trial succeeds whatever the random
    state, and announces between 35 and 135 pieces. *)
Theorem step_on_selectable_succeeds :
  forall (shoe_size : Z) (working : list lego) (g : rng),
    30 <= shoe_size <= 49 ->
    (134 <= length working)%nat ->
    (exists r, In r working /\ is_trophy r = true) ->
    exists s g',
      get_legos_stepped_on true shoe_size working g = Ok (Some s, g') /\
      35 <= announced s <= 135 /\
      Z.of_nat (length (legos_stepped_on s)) = announced s.
Proof.
  intros shoe_size working g Hsize Hlen Htrophy.
  destruct (TrialErrors.get_num_legos_stepped_on_selectable shoe_size g Hsize)
    as (n & g1 & Hnum & Hn).
  apply trophy_exists in Htrophy.
  destruct (sample_ok working n g1 ltac:(lia)) as (base & g2 & Hb & Hblen & _).
  destruct (sample_ok (filter is_trophy working) 1 g2) as (token & g3 & Ht & Htlen & _).
  { destruct (filter is_trophy working); [now elim Htrophy | simpl; lia]. }
  eexists. eexists. split; [|split].
  - unfold get_legos_stepped_on.
    rewrite (bind_step _ _ g g1 n Hnum), (bind_step _ _ g1 g2 base Hb),
            (bind_step _ _ g2 g3 token Ht).
    reflexivity.
  - cbn [announced]. lia.
  - cbn [announced legos_stepped_on]. rewrite length_app, Nat2Z.inj_add. lia.
Qed.

Lemma step_on_selectable_succeeds_witness :
  exists s g',
    get_legos_stepped_on true 42 pile200 (rng_of [7; 3; 150; 9]%nat) = Ok (Some s, g') /\
    35 <= announced s <= 135 /\
    Z.of_nat (length (legos_stepped_on s)) = announced s.
Proof.
  apply step_on_selectable_succeeds.
  - lia.
  - vm_compute. repeat constructor.
  - exists head. split; [|reflexivity]. unfold pile200. apply in_or_app. right. now left.
Defined.



End TrialFacts.

(** ** The death roll and the damage of a trial *)

Module AftermathFacts.
Import Numpy Pandas App Spec Vocabulary SamplingFacts MonadFacts RandomFacts.
Import TrialFacts Examples.

Lemma cell_eqb_eq (c : option string) (s : string) :
  cell_eqb c s = true <-> c = Some s.
Proof.
  unfold cell_eqb. destruct c as [v|].
  - rewrite String.eqb_eq. split; [now intros -> | now intros [= ->]].
  - split; discriminate.
Qed.

Lemma is_figure_spec (r : lego) : is_figure (part_cat_name r) = true <-> figure r.
Proof.
  unfold is_figure, figure. rewrite !orb_true_iff, !cell_eqb_eq. tauto.
Qed.

Lemma get_death_roll_app (a b : list lego) :
  get_death_roll (a ++ b) = get_death_roll a ++ get_death_roll b.
Proof. unfold get_death_roll. now rewrite filter_app, map_app. Qed.

(** X5. The death roll holds the name and the image of exactly the rows
    of the three figure categories, a row without category being no figure;
    it is made row by row, in the order of the frame; and the count shown is
    at most the number of rows. *)
Theorem death_roll_members :
  forall (a b : list lego),
    (forall f, In f (get_death_roll a) <->
               exists r, In r a /\ figure r /\ f = fallen_of r) /\
    get_death_roll (a ++ b) = get_death_roll a ++ get_death_roll b /\
    vanquished (render_death_roll (a ++ b))
    = (vanquished (render_death_roll a) + vanquished (render_death_roll b))%nat /\
    (vanquished (render_death_roll a) <= length a)%nat.
Proof.
  intros a b. split; [|split; [|split]].
  - intros f. unfold get_death_roll. rewrite in_map_iff. split.
    + intros (r & <- & Hr). apply filter_In in Hr. destruct Hr as [Hin Hfig].
      exists r. split; [exact Hin|]. split; [now apply is_figure_spec | reflexivity].
    + intros (r & Hin & Hfig & ->). exists r. split; [reflexivity|].
      apply filter_In. split; [exact Hin | now apply is_figure_spec].
  - apply get_death_roll_app.
  - unfold render_death_roll. cbn [vanquished].
    now rewrite get_death_roll_app, length_app.
  - unfold render_death_roll. cbn [vanquished]. unfold get_death_roll.
    rewrite length_map. apply filter_length_le.
Qed.

Lemma trophy_is_figure (working : list lego) (trophy : lego) :
  In trophy (filter is_trophy working) ->
  In trophy working /\ is_figure (part_cat_name trophy) = true /\
  img_url trophy <> None.
Proof.
  intros Hin. apply filter_In in Hin. destruct Hin as [Hw Ht].
  unfold is_trophy in Ht. apply andb_true_iff in Ht. destruct Ht as [Hcat Himg].
  split; [exact Hw|]. split.
  - unfold is_figure. rewrite Hcat. now rewrite orb_true_r.
  - destruct (img_url trophy); [discriminate | discriminate Himg].
Qed.

(** A successful trial, with the trophy named. *)
Lemma trial_rows (shoe_size : Z) (working : list lego) (g g' : rng) (s : step) :
  get_legos_stepped_on true shoe_size working g = Ok (Some s, g') ->
  exists base trophy,
    legos_stepped_on s = base ++ [trophy] /\
    announced s = Z.of_nat (length base) + 1 /\
    incl base working /\
    In trophy (filter is_trophy working).
Proof.
  intros Hrun.
  destruct (trial_inv _ _ _ _ _ Hrun) as (n & g1 & base & g2 & trophy & Hn & Hb & Ht & Hs).
  injection Hs as ->. exists base, trophy. cbn [legos_stepped_on announced].
  apply sample_inv in Hb. destruct Hb as (_ & Hlen & Hdrawn).
  apply sample_inv in Ht. destruct Ht as (_ & _ & Htdrawn).
  repeat split.
  - lia.
  - exact (drawn_In _ _ Hdrawn).
  - apply (drawn_In _ _ Htdrawn). now left.
Qed.

(** X6. After a successful trial at least one figure is vanquished: the
    trophy closes the death roll, with its image; and when every eligible
    trophy of the pile has a part name, a featured enemy is shown. *)
Theorem step_on_vanquishes_the_trophy :
  forall (shoe_size : Z) (working : list lego) (g g' : rng) (s : step),
    get_legos_stepped_on true shoe_size working g = Ok (Some s, g') ->
    (1 <= vanquished (render_death_roll (legos_stepped_on s)))%nat /\
    (exists trophy,
       In trophy working /\ img_url trophy <> None /\
       last (get_death_roll (legos_stepped_on s)) (fallen_of trophy) = fallen_of trophy /\
       In (fallen_of trophy) (get_death_roll (legos_stepped_on s))) /\
    ((forall r, In r working -> is_trophy r = true -> part_name r <> None) ->
     featured_enemy (render_death_roll (legos_stepped_on s)) <> None).
Proof.
  intros shoe_size working g g' s Hrun.
  destruct (trial_rows _ _ _ _ _ Hrun) as (base & trophy & Hrows & _ & _ & Htrophy).
  pose proof (trophy_is_figure _ _ Htrophy) as (Hw & Hfig & Himg).
  assert (Hroll : get_death_roll (legos_stepped_on s)
                  = get_death_roll base ++ [fallen_of trophy]).
  { rewrite Hrows, get_death_roll_app. f_equal.
    unfold get_death_roll. cbn [filter]. rewrite Hfig. reflexivity. }
  split; [|split].
  - unfold render_death_roll. cbn [vanquished]. rewrite Hroll, length_app. simpl. lia.
  - exists trophy. split; [exact Hw|]. split; [exact Himg|]. rewrite Hroll. split.
    + apply last_last.
    + apply in_or_app. right. now left.
  - intros Hnamed.
    rewrite DeathRollFacts.featured_enemy_first_complete, Hroll.
    assert (Hname : part_name trophy <> None).
    { apply Hnamed; [exact Hw|]. apply filter_In in Htrophy. tauto. }
    assert (Hcomplete : (fun r => notna (f_part_name r) && notna (f_img_url r))
                          (fallen_of trophy) = true).
    { cbn [fallen_of f_part_name f_img_url].
      destruct (part_name trophy); [|now elim Hname].
      destruct (img_url trophy); [reflexivity | now elim Himg]. }
    intros Hnone.
    assert (Hin : In (fallen_of trophy) (get_death_roll base ++ [fallen_of trophy]))
      by (apply in_or_app; right; now left).
    pose proof (find_none _ _ Hnone (fallen_of trophy) Hin) as Hfalse.
    cbv beta in Hcomplete, Hfalse. congruence.
Qed.

Lemma step_on_vanquishes_the_trophy_witness :
  (1 <= vanquished (render_death_roll [faceless_head; brick; plate; head]))%nat /\
  (exists trophy,
     In trophy pile5 /\ img_url trophy <> None /\
     last (get_death_roll [faceless_head; brick; plate; head]) (fallen_of trophy)
     = fallen_of trophy /\
     In (fallen_of trophy) (get_death_roll [faceless_head; brick; plate; head])) /\
  ((forall r, In r pile5 -> is_trophy r = true -> part_name r <> None) ->
   featured_enemy (render_death_roll [faceless_head; brick; plate; head]) <> None).
Proof.
  eapply (step_on_vanquishes_the_trophy 2 pile5 (rng_of [13; 4; 0; 2; 5]%nat) _
            {| announced := 4;
               legos_stepped_on := [faceless_head; brick; plate; head] |}).
  lazy. reflexivity.
Defined.

(** X7. The featured enemy is the first row of the death roll that has both
    a part name and an image: it is such a row of the death roll, and there
    is none exactly when no row of the death roll has both. *)
Theorem featured_enemy_complete :
  forall (legos : list lego),
    (forall f, featured_enemy (render_death_roll legos) = Some f ->
       In f (get_death_roll legos) /\ complete f /\
       exists before after,
         get_death_roll legos = before ++ f :: after /\
         forall f', In f' before -> ~ complete f') /\
    (featured_enemy (render_death_roll legos) = None <->
     forall f, In f (get_death_roll legos) -> ~ complete f).
Proof.
  intros legos. rewrite DeathRollFacts.featured_enemy_first_complete.
  set (both := fun r : fallen => notna (f_part_name r) && notna (f_img_url r)).
  assert (Hboth : forall f, both f = true <-> complete f).
  { intros f. unfold both, complete, notna. rewrite andb_true_iff.
    destruct (f_part_name f), (f_img_url f); split; intros [H1 H2]; split;
      try reflexivity; try discriminate; try (now elim H1); try (now elim H2). }
  generalize (get_death_roll legos). intros roll. split.
  - intros f Hfind. split; [|split].
    + exact (proj1 (find_some _ _ Hfind)).
    + apply Hboth. exact (proj2 (find_some _ _ Hfind)).
    + induction roll as [|x roll IH]; [discriminate Hfind|].
      cbn [find] in Hfind. destruct (both x) eqn:Hx.
      * injection Hfind as <-. exists [], roll. split; [reflexivity | intros f' []].
      * destruct (IH Hfind) as (before & after & -> & Hbefore).
        exists (x :: before), after. split; [reflexivity|].
        intros f' [<-|Hin]; [|now apply Hbefore].
        intros Hc. apply Hboth in Hc. congruence.
  - split.
    + intros Hnone f Hin Hc. apply Hboth in Hc.
      pose proof (find_none _ _ Hnone f Hin). congruence.
    + intros Hnone. destruct (find both roll) as [f|] eqn:Hfind; [|reflexivity].
      apply find_some in Hfind. destruct Hfind as [Hin Hc].
      apply Hboth in Hc. elim (Hnone f Hin Hc).
Qed.

Lemma calculate_damage_app (a b : list lego) :
  calculate_damage (a ++ b) = calculate_damage a + calculate_damage b.
Proof.
  unfold calculate_damage. rewrite !DamageFacts.duplo_damage_count.
  rewrite filter_app, !length_app, !Nat2Z.inj_add. lia.
Qed.

(** X8. The damage adds up over the pieces: the damage of two frames put
    together is the sum of their damages, and a frame never does more than
    two points per row. *)
Theorem damage_additive :
  forall (a b : list lego),
    calculate_damage (a ++ b) = calculate_damage a + calculate_damage b /\
    calculate_damage a <= 2 * Z.of_nat (length a).
Proof.
  intros a b. split; [apply calculate_damage_app|].
  unfold calculate_damage. rewrite DamageFacts.duplo_damage_count.
  pose proof (filter_length_le names_duplo a). lia.
Qed.

(** X9. The damage of a successful trial is at least the number of pieces
    announced and less than twice that number: the trophy, a minifig head,
    counts one point. *)
Theorem step_on_damage_bounds :
  forall (shoe_size : Z) (working : list lego) (g g' : rng) (s : step),
    get_legos_stepped_on true shoe_size working g = Ok (Some s, g') ->
    announced s <= render_damage (legos_stepped_on s) <= 2 * announced s - 1.
Proof.
  intros shoe_size working g g' s Hrun.
  destruct (trial_rows _ _ _ _ _ Hrun) as (base & trophy & Hrows & Hann & _ & Htrophy).
  unfold render_damage. rewrite Hrows, calculate_damage_app, Hann.
  assert (Hone : calculate_damage [trophy] = 1).
  { apply filter_In in Htrophy. destruct Htrophy as [_ Ht].
    unfold is_trophy in Ht. apply andb_true_iff in Ht. destruct Ht as [Hcat _].
    apply cell_eqb_eq in Hcat.
    unfold calculate_damage, str_contains. cbn [map length]. rewrite Hcat. reflexivity. }
  rewrite Hone.
  assert (Hbase : Z.of_nat (length base) <= calculate_damage base
                  <= 2 * Z.of_nat (length base)).
  { unfold calculate_damage. rewrite DamageFacts.duplo_damage_count.
    pose proof (filter_length_le names_duplo base). lia. }
  lia.
Qed.

Lemma step_on_damage_bounds_witness :
  4 <= render_damage [faceless_head; brick; plate; head] <= 2 * 4 - 1.
Proof.
  eapply (step_on_damage_bounds 2 pile5 (rng_of [13; 4; 0; 2; 5]%nat) _
            {| announced := 4;
               legos_stepped_on := [faceless_head; brick; plate; head] |}).
  lazy. reflexivity.
Defined.

End AftermathFacts.

(** ** The colour map and the treemap *)

Module ColorMapFacts.
Import Numpy Pandas App Spec Vocabulary Examples.

Lemma key_eqb_string_eq (a b : option string) :
  key_eqb String.eqb a b = true <-> a = b.
Proof.
  destruct a as [x|], b as [y|]; cbn [key_eqb].
  - rewrite String.eqb_eq. split; [now intros -> | now intros [= ->]].
  - split; discriminate.
  - split; discriminate.
  - split; reflexivity.
Qed.

Lemma cell_pair_eqb_eq (a b : option string * option string) :
  cell_pair_eqb a b = true <-> a = b.
Proof.
  unfold cell_pair_eqb. rewrite andb_true_iff, !key_eqb_string_eq.
  destruct a, b; cbn [fst snd]. split; [intros [-> ->]; reflexivity | now intros [= -> ->]].
Qed.

Section DropDuplicates.
Context {A : Type} (eqb : A -> A -> bool).
Hypothesis eqb_eq : forall x y, eqb x y = true <-> x = y.

Let keep_first (seen : list A) (r : A) : list A :=
  if existsb (eqb r) seen then seen else r :: seen.

Lemma seen_step_In (seen : list A) (r x : A) :
  In x (keep_first seen r) <-> In x seen \/ x = r.
Proof.
  unfold keep_first. destruct (existsb (eqb r) seen) eqn:He.
  - apply existsb_exists in He. destruct He as (y & Hy & Hry).
    apply eqb_eq in Hry. subst y. split; [now left | intros [H | ->]; assumption].
  - simpl. split; [intros [<-|H]; [now right | now left] | intros [H | ->]; [now right | now left]].
Qed.

Lemma seen_step_NoDup (seen : list A) (r : A) :
  NoDup seen -> NoDup (keep_first seen r).
Proof.
  intros Hnd. unfold keep_first. destruct (existsb (eqb r) seen) eqn:He; [exact Hnd|].
  constructor; [|exact Hnd]. intros Hin.
  assert (existsb (eqb r) seen = true)
    by (apply existsb_exists; exists r; split; [exact Hin | now apply eqb_eq]).
  congruence.
Qed.

Lemma seen_fold (df : list A) : forall seen,
  NoDup seen ->
  NoDup (fold_left keep_first df seen) /\
  forall x, In x (fold_left keep_first df seen) <-> In x seen \/ In x df.
Proof.
  induction df as [|r df IH]; intros seen Hnd; cbn [fold_left].
  - split; [exact Hnd|]. intros x. simpl. tauto.
  - destruct (IH (keep_first seen r) (seen_step_NoDup seen r Hnd)) as [Hnd' Hin].
    split; [exact Hnd'|]. intros x. rewrite Hin, seen_step_In. simpl.
    split; [intros [[H|H]|H] | intros [H|[H|H]]]; auto.
Qed.

(** [drop_duplicates] keeps one copy of every row. *)
Lemma drop_duplicates_spec (df : list A) :
  NoDup (drop_duplicates eqb df) /\
  forall x, In x (drop_duplicates eqb df) <-> In x df.
Proof.
  unfold drop_duplicates. fold keep_first.
  destruct (seen_fold df [] (NoDup_nil A)) as [Hnd Hin]. split.
  - now apply NoDup_rev.
  - intros x. rewrite <- in_rev, Hin. simpl. tauto.
Qed.

End DropDuplicates.

(** The entries the loop assigns, when no colour code is missing. *)
Lemma color_assignments_ok : forall (colors : list (option string * option string))
    (m : list (option string * string)),
  color_assignments colors = Ok m ->
  Forall2 (fun c a => exists hex, snd c = Some hex /\ a = (fst c, ("#" ++ hex)%string))
    colors m.
Proof.
  induction colors as [|[name [hex|]] colors IH]; intros m Hm; cbn [color_assignments] in Hm.
  - injection Hm as <-. constructor.
  - destruct (color_assignments colors) as [rest|]; [|discriminate].
    cbn [bindR] in Hm. injection Hm as <-. constructor; [|now apply IH].
    exists hex. split; reflexivity.
  - discriminate.
Qed.

Lemma color_assignments_total : forall (colors : list (option string * option string)),
  (forall c, In c colors -> snd c <> None) ->
  exists m, color_assignments colors = Ok m.
Proof.
  induction colors as [|[name [hex|]] colors IH]; intros Hall.
  - exists []. reflexivity.
  - destruct IH as [rest Hrest]; [intros c Hc; apply Hall; now right|].
    eexists. cbn [color_assignments]. rewrite Hrest. reflexivity.
  - elim (Hall (name, None) (or_introl eq_refl)). reflexivity.
Qed.

Lemma color_assignments_raise : forall (colors : list (option string * option string))
    (e : exn),
  color_assignments colors = Raise e ->
  e = TypeError_str_concat /\ exists c, In c colors /\ snd c = None.
Proof.
  induction colors as [|[name [hex|]] colors IH]; intros e He; cbn [color_assignments] in He.
  - discriminate.
  - destruct (color_assignments colors) as [rest|e'] eqn:Hrest; [discriminate|].
    cbn [bindR] in He. injection He as <-.
    destruct (IH e' eq_refl) as (-> & c & Hc & Hnone).
    split; [reflexivity|]. exists c. split; [now right | exact Hnone].
  - injection He as <-. split; [reflexivity|].
    exists (name, None). split; [now left | reflexivity].
Qed.

Lemma colors_In (legos : list lego) (c : option string * option string) :
  In c (drop_duplicates cell_pair_eqb (map (fun r => (color_name r, rgb r)) legos))
  <-> exists r, In r legos /\ c = (color_name r, rgb r).
Proof.
  rewrite (proj2 (drop_duplicates_spec cell_pair_eqb cell_pair_eqb_eq _)), in_map_iff.
  split; intros (r & H1 & H2); exists r; [split; [exact H2 | now symmetry]
                                          | split; [now symmetry | exact H1]].
Qed.

Lemma Forall2_In_left {A B} (P : A -> B -> Prop) (l : list A) (m : list B) (a : A) :
  Forall2 P l m -> In a l -> exists b, In b m /\ P a b.
Proof.
  intros Hall. induction Hall as [|x y l m Hxy Hall IH]; intros Hin; [contradiction|].
  destruct Hin as [<-|Hin].
  - exists y. split; [now left | exact Hxy].
  - destruct (IH Hin) as (b & Hb & Hab). exists b. split; [now right | exact Hab].
Qed.

(** X10. The colour map fails exactly on a frame holding a row without
    colour code, with the [TypeError] of the string concatenation; the
    treemap fails with it. *)
Theorem color_map_raises_iff :
  forall (legos : list lego),
    ((exists m, get_lego_color_map legos = Ok m) <->
     forall r, In r legos -> rgb r <> None) /\
    (get_lego_color_map legos = Raise TypeError_str_concat <->
     exists r, In r legos /\ rgb r = None) /\
    (forall e, get_lego_color_map legos = Raise e -> e = TypeError_str_concat) /\
    (forall e, get_lego_color_map legos = Raise e ->
               visualize_lego_colors legos = Raise e).
Proof.
  intros legos. unfold get_lego_color_map.
  set (colors := drop_duplicates cell_pair_eqb
                   (map (fun r => (color_name r, rgb r)) legos)).
  assert (Hraise : forall e, color_assignments colors = Raise e ->
            e = TypeError_str_concat /\ exists r, In r legos /\ rgb r = None).
  { intros e He. destruct (color_assignments_raise colors e He) as (-> & c & Hc & Hnone).
    split; [reflexivity|]. apply colors_In in Hc. destruct Hc as (r & Hr & ->).
    exists r. split; [exact Hr | exact Hnone]. }
  assert (Hok : (forall r, In r legos -> rgb r <> None) ->
                exists m, color_assignments colors = Ok m).
  { intros Hall. apply color_assignments_total. intros c Hc.
    apply colors_In in Hc. destruct Hc as (r & Hr & ->). now apply Hall. }
  split; [|split; [|split]].
  - split; [|exact Hok].
    intros [m Hm] r Hr Hnone.
    pose proof (color_assignments_ok colors m Hm) as Hall.
    assert (Hc : In (color_name r, rgb r) colors)
      by (apply colors_In; exists r; split; [exact Hr | reflexivity]).
    destruct (Forall2_In_left _ _ _ _ Hall Hc) as (a & _ & hex & Hhex & _).
    cbn [snd] in Hhex. congruence.
  - split.
    + intros He. exact (proj2 (Hraise _ He)).
    + intros (r & Hr & Hnone).
      destruct (color_assignments colors) as [m|e] eqn:Hm.
      * pose proof (color_assignments_ok colors m Hm) as Hall.
        assert (Hc : In (color_name r, rgb r) colors)
          by (apply colors_In; exists r; split; [exact Hr | reflexivity]).
        destruct (Forall2_In_left _ _ _ _ Hall Hc) as (a & _ & hex & Hhex & _).
        cbn [snd] in Hhex. congruence.
      * now destruct (Hraise e eq_refl) as [-> _].
  - intros e He. exact (proj1 (Hraise e He)).
  - intros e He. unfold visualize_lego_colors, get_lego_color_map. fold colors.
    now rewrite He.
Qed.

Lemma NoDup_map_in {A B} (f : A -> B) (l : list A) :
  (forall x y, In x l -> In y l -> f x = f y -> x = y) ->
  NoDup l -> NoDup (map f l).
Proof.
  intros Hinj Hnd. induction Hnd as [|x l Hx Hnd IH]; [constructor|].
  cbn [map]. constructor.
  - intros Hin. apply in_map_iff in Hin. destruct Hin as (y & Hxy & Hy).
    assert (y = x) by (apply Hinj; [now right | now left | exact Hxy]).
    subst y. contradiction.
  - apply IH. intros a b Ha Hb. apply Hinj; now right.
Qed.

Lemma Forall2_map_eq {A B} (f : A -> B) (P : A -> B -> Prop) (l : list A) (m : list B) :
  (forall a b, In a l -> P a b -> b = f a) -> Forall2 P l m -> m = map f l.
Proof.
  intros Hf Hall. induction Hall as [|a b l m Hab Hall IH]; [reflexivity|].
  cbn [map]. f_equal.
  - apply Hf; [now left | exact Hab].
  - apply IH. intros a' b' Ha'. apply Hf. now right.
Qed.

(** The entries of a colour map that was built. *)
Lemma get_lego_color_map_In (legos : list lego) (m : list (option string * string)) :
  get_lego_color_map legos = Ok m ->
  NoDup m /\
  (forall entry, In entry m <-> exists r, In r legos /\ color_entry r entry) /\
  length m
  = length (drop_duplicates cell_pair_eqb (map (fun r => (color_name r, rgb r)) legos)).
Proof.
  intros Hm. unfold get_lego_color_map in Hm.
  set (colors := drop_duplicates cell_pair_eqb
                   (map (fun r => (color_name r, rgb r)) legos)) in *.
  pose proof (color_assignments_ok colors m Hm) as Hall.
  destruct (drop_duplicates_spec cell_pair_eqb cell_pair_eqb_eq
              (map (fun r => (color_name r, rgb r)) legos)) as [Hnd _].
  fold colors in Hnd.
  set (assign := fun c : option string * option string =>
                   (fst c, ("#" ++ match snd c with Some h => h | None => "" end)%string)).
  assert (Hmap : m = map assign colors).
  { refine (Forall2_map_eq assign _ colors m _ Hall).
    intros c a _ (hex & Hhex & ->). unfold assign. now rewrite Hhex. }
  assert (Hsome : forall c, In c colors -> exists hex, snd c = Some hex).
  { intros c Hc. destruct (Forall2_In_left _ _ _ _ Hall Hc) as (a & _ & hex & Hhex & _).
    now exists hex. }
  split; [|split].
  - rewrite Hmap. apply NoDup_map_in; [|exact Hnd].
    intros [n1 c1] [n2 c2] H1 H2 Heq.
    destruct (Hsome _ H1) as [h1 Hh1]. destruct (Hsome _ H2) as [h2 Hh2].
    cbn [snd] in Hh1, Hh2. subst c1 c2. unfold assign in Heq. cbn [fst snd] in Heq.
    injection Heq as -> ->. reflexivity.
  - intros entry. rewrite Hmap, in_map_iff. split.
    + intros (c & <- & Hc). pose proof Hc as Hc'. apply colors_In in Hc'.
      destruct Hc' as (r & Hr & ->). destruct (Hsome _ Hc) as [hex Hhex].
      cbn [snd] in Hhex. exists r. split; [exact Hr|]. exists hex.
      split; [exact Hhex|]. unfold assign. cbn [fst snd]. now rewrite Hhex.
    + intros (r & Hr & hex & Hhex & ->).
      exists (color_name r, rgb r). split.
      * unfold assign. cbn [fst snd]. now rewrite Hhex.
      * apply colors_In. exists r. split; [exact Hr | reflexivity].
  - rewrite Hmap. apply length_map.
Qed.

(** X11. When the colour map is built, its entries are exactly those the
    rows ask for, each colour name bound to the colour code of a row of
    that colour behind a hash sign; every entry is assigned once, and there
    are no more entries than rows. *)
Theorem color_map_entries :
  forall (legos : list lego) (m : list (option string * string)),
    get_lego_color_map legos = Ok m ->
    NoDup m /\
    (forall entry, In entry m <-> exists r, In r legos /\ color_entry r entry) /\
    (length m <= length legos)%nat.
Proof.
  intros legos m Hm.
  destruct (get_lego_color_map_In legos m Hm) as (Hnd & Hin & Hlen).
  split; [exact Hnd|]. split; [exact Hin|].
  rewrite Hlen, <- (length_map (fun r => (color_name r, rgb r)) legos).
  apply NoDup_incl_length.
  - exact (proj1 (drop_duplicates_spec cell_pair_eqb cell_pair_eqb_eq _)).
  - intros c Hc. apply colors_In in Hc. destruct Hc as (r & Hr & ->).
    apply in_map_iff. exists r. split; [reflexivity | exact Hr].
Qed.

Lemma color_map_entries_witness :
  NoDup [(Some "Red", "#C91A09"); (Some "Yellow", "#F2CD37")]%string /\
  (forall entry,
     In entry [(Some "Red", "#C91A09"); (Some "Yellow", "#F2CD37")]%string <->
     exists r, In r [brick; head; brick; faceless_head] /\ color_entry r entry) /\
  (length [(Some "Red", "#C91A09"); (Some "Yellow", "#F2CD37")]%string
   <= length [brick; head; brick; faceless_head])%nat.
Proof.
  apply (color_map_entries [brick; head; brick; faceless_head]). reflexivity.
Defined.

(** X12. Where the colour name decides the colour code, as in the colour
    table, every colour name has one entry in the colour map. *)
Theorem color_map_one_entry_per_name :
  forall (legos : list lego) (m : list (option string * string)),
    get_lego_color_map legos = Ok m ->
    (forall r1 r2, In r1 legos -> In r2 legos ->
                   color_name r1 = color_name r2 -> rgb r1 = rgb r2) ->
    NoDup (map fst m).
Proof.
  intros legos m Hm Hfun.
  destruct (get_lego_color_map_In legos m Hm) as (Hnd & Hin & _).
  apply NoDup_map_in; [|exact Hnd].
  intros a b Ha Hb Hab.
  apply Hin in Ha. destruct Ha as (r1 & Hr1 & h1 & Hh1 & ->).
  apply Hin in Hb. destruct Hb as (r2 & Hr2 & h2 & Hh2 & ->).
  cbn [fst] in Hab. pose proof (Hfun r1 r2 Hr1 Hr2 Hab) as Hrgb.
  rewrite Hh1, Hh2 in Hrgb. injection Hrgb as ->. now rewrite Hab.
Qed.

Lemma color_map_one_entry_per_name_witness :
  NoDup (map fst [(Some "Red", "#C91A09"); (Some "Yellow", "#F2CD37")]%string).
Proof.
  apply (color_map_one_entry_per_name [brick; head; brick; faceless_head]);
    [reflexivity|].
  intros r1 r2 H1 H2. simpl in H1, H2.
  decompose [or] H1; decompose [or] H2; subst; try contradiction;
    intros Hc; try reflexivity; discriminate Hc.
Defined.

End ColorMapFacts.

(** ** The table of counts of the treemap *)

Module CountsFacts.
Import Numpy Pandas App Spec Vocabulary Examples.

Lemma incr_keys (k : string) (acc : list (string * nat)) (k' : string) :
  In k' (map fst (incr k acc)) <-> In k' (map fst acc) \/ k' = k.
Proof.
  induction acc as [|[k0 c] acc IH]; cbn [incr map fst].
  - simpl. split; [intros [<- | []]; now right | intros [[] | ->]; now left].
  - destruct (String.eqb k k0) eqn:Hk; cbn [map fst In].
    + apply String.eqb_eq in Hk. subst k0. split; [tauto | intros [H | ->]; [exact H | now left]].
    + rewrite IH. tauto.
Qed.

Lemma incr_NoDup (k : string) (acc : list (string * nat)) :
  NoDup (map fst acc) -> NoDup (map fst (incr k acc)).
Proof.
  induction acc as [|[k0 c] acc IH]; cbn [incr map fst]; intros Hnd.
  - constructor; [intros [] | constructor].
  - inversion Hnd as [|? ? Hnot Hnd']; subst.
    destruct (String.eqb k k0) eqn:Hk; cbn [map fst].
    + constructor; assumption.
    + constructor; [|now apply IH].
      intros Hin. apply incr_keys in Hin. destruct Hin as [Hin | ->]; [contradiction|].
      rewrite String.eqb_refl in Hk. discriminate.
Qed.

Lemma incr_positive (k : string) (acc : list (string * nat)) :
  Forall (fun kc => (1 <= snd kc)%nat) acc ->
  Forall (fun kc => (1 <= snd kc)%nat) (incr k acc).
Proof.
  induction acc as [|[k0 c] acc IH]; cbn [incr]; intros Hall.
  - constructor; [simpl; lia | constructor].
  - inversion Hall as [|? ? Hc Hall']; subst.
    destruct (String.eqb k k0); constructor; cbn [snd] in *; try lia; auto.
Qed.

Lemma tally_fold (col : list string) : forall acc,
  NoDup (map fst acc) -> Forall (fun kc => (1 <= snd kc)%nat) acc ->
  let t := fold_left (fun acc k => incr k acc) col acc in
  NoDup (map fst t) /\ Forall (fun kc => (1 <= snd kc)%nat) t /\
  forall k, In k (map fst t) <-> In k (map fst acc) \/ In k col.
Proof.
  induction col as [|k col IH]; intros acc Hnd Hpos; cbn [fold_left].
  - repeat split; try assumption; simpl; tauto.
  - destruct (IH (incr k acc) (incr_NoDup k acc Hnd) (incr_positive k acc Hpos))
      as (Hnd' & Hpos' & Hin).
    repeat split; try assumption.
    + intros H. apply Hin in H. rewrite incr_keys in H. simpl.
      destruct H as [[H|H]|H]; auto.
    + intros H. apply Hin. rewrite incr_keys. simpl in H.
      destruct H as [H|[H|H]]; auto.
Qed.

Lemma insert_desc_perm (x : string * nat) (l : list (string * nat)) :
  Permutation (insert_desc x l) (x :: l).
Proof.
  induction l as [|y l IH]; cbn [insert_desc]; [reflexivity|].
  destruct (snd y <=? snd x)%nat; [reflexivity|].
  rewrite IH. apply perm_swap.
Qed.

Lemma sort_desc_perm (l : list (string * nat)) : Permutation (sort_desc l) l.
Proof.
  induction l as [|x l IH]; [reflexivity|].
  cbn [sort_desc fold_right]. fold (sort_desc l).
  rewrite insert_desc_perm. now constructor.
Qed.

Lemma insert_desc_hd (x y : string * nat) (l : list (string * nat)) :
  (snd x <= snd y)%nat ->
  HdRel (fun a b => (snd b <= snd a)%nat) y l ->
  HdRel (fun a b => (snd b <= snd a)%nat) y (insert_desc x l).
Proof.
  intros Hxy Hhd. destruct l as [|z l]; cbn [insert_desc].
  - constructor. exact Hxy.
  - destruct (snd z <=? snd x)%nat; constructor; [exact Hxy|].
    now inversion Hhd.
Qed.

Lemma insert_desc_sorted (x : string * nat) (l : list (string * nat)) :
  descending l -> descending (insert_desc x l).
Proof.
  unfold descending. induction l as [|y l IH]; cbn [insert_desc]; intros Hs.
  - constructor; constructor.
  - destruct (Nat.leb_spec (snd y) (snd x)) as [Hle|Hgt].
    + constructor; [exact Hs|]. constructor. exact Hle.
    + inversion Hs as [|? ? Hs' Hhd]; subst. constructor; [now apply IH|].
      apply insert_desc_hd; [lia | exact Hhd].
Qed.

Lemma sort_desc_sorted (l : list (string * nat)) : descending (sort_desc l).
Proof.
  induction l as [|x l IH]; [constructor|].
  cbn [sort_desc fold_right]. fold (sort_desc l). now apply insert_desc_sorted.
Qed.

Lemma dropna_In {A} (col : list (option A)) (v : A) :
  In v (dropna col) <-> In (Some v) col.
Proof.
  unfold dropna. rewrite in_flat_map. split.
  - intros ([w|] & Hin & Hv); [|contradiction].
    destruct Hv as [<-|[]]. exact Hin.
  - intros Hin. exists (Some v). split; [exact Hin | now left].
Qed.

(** X13. The table the treemap is drawn from lists every colour name of
    the frame once, with a count of at least 1, the most frequent first. *)
Theorem treemap_counts_table :
  forall (legos : list lego) (fig : Figure),
    visualize_lego_colors legos = Ok fig ->
    NoDup (map fst (fig_data fig)) /\
    Forall (fun kc => (1 <= snd kc)%nat) (fig_data fig) /\
    descending (fig_data fig) /\
    (forall name, In name (map fst (fig_data fig)) <->
                  exists r, In r legos /\ color_name r = Some name).
Proof.
  intros legos fig Hfig. unfold visualize_lego_colors in Hfig.
  destruct (get_lego_color_map legos) as [color_map|]; [|discriminate].
  cbn [bindR] in Hfig. injection Hfig as <-. cbn [fig_data].
  unfold value_counts, tally.
  destruct (tally_fold (dropna (map color_name legos)) [] (NoDup_nil _) (Forall_nil _))
    as (Hnd & Hpos & Hin).
  pose proof (sort_desc_perm
                (fold_left (fun acc k => incr k acc) (dropna (map color_name legos)) []))
    as Hperm.
  split; [|split; [|split]].
  - eapply Permutation_NoDup; [|exact Hnd].
    apply Permutation_map. now symmetry.
  - eapply Permutation_Forall; [|exact Hpos]. now symmetry.
  - apply sort_desc_sorted.
  - intros name. split.
    + intros H. apply (Permutation_in _ (Permutation_map fst Hperm)) in H.
      apply Hin in H. destruct H as [[]|H].
      apply dropna_In, in_map_iff in H. destruct H as (r & Hc & Hr).
      exists r. split; assumption.
    + intros (r & Hr & Hc).
      apply (Permutation_in _ (Permutation_map fst (Permutation_sym Hperm))).
      apply Hin. right. apply dropna_In, in_map_iff. exists r. split; assumption.
Qed.

Lemma treemap_counts_table_witness :
  NoDup (map fst [("Yellow", 2); ("Red", 1); ("Blue", 1); ("Black", 1)]%string%nat) /\
  Forall (fun kc => (1 <= snd kc)%nat)
    [("Yellow", 2); ("Red", 1); ("Blue", 1); ("Black", 1)]%string%nat /\
  descending [("Yellow", 2); ("Red", 1); ("Blue", 1); ("Black", 1)]%string%nat /\
  (forall name,
     In name (map fst [("Yellow", 2); ("Red", 1); ("Blue", 1); ("Black", 1)]%string%nat)
     <-> exists r, In r pile5 /\ color_name r = Some name).
Proof.
  eapply (treemap_counts_table pile5
            {| fig_data := [("Yellow", 2); ("Red", 1); ("Blue", 1); ("Black", 1)]%string%nat;
               fig_color_discrete_map := _ |}).
  lazy. reflexivity.
Defined.

End CountsFacts.

(** ** The explosion, row by row *)

Module ExplodeRows.
Import Pandas Preprocess Spec Vocabulary Examples.

Lemma np_repeat_1_ok (q : Z) :
  0 <= q -> np_repeat_1 q = Ok (repeat 1 (Z.to_nat q)).
Proof.
  intros Hq. unfold np_repeat_1.
  destruct (Z.ltb_spec q 0); [lia | reflexivity].
Qed.

Lemma explode_row_repeat (r : inventory_part Z) :
  0 <= ip_quantity r ->
  map drop_quantity
    (explode_row
       {| ip_part_num := ip_part_num r; ip_color_id := ip_color_id r;
          ip_quantity := repeat 1 (Z.to_nat (ip_quantity r));
          ip_img_url := ip_img_url r |})
  = pieces_of r.
Proof.
  intros Hq. unfold explode_row, pieces_of.
  cbn [ip_quantity ip_part_num ip_color_id ip_img_url].
  destruct (Z.to_nat (ip_quantity r)) as [|n] eqn:Hn.
  - replace (Z.to_nat (Z.max (ip_quantity r) 1)) with 1%nat by lia. reflexivity.
  - replace (Z.to_nat (Z.max (ip_quantity r) 1)) with (S n) by lia.
    cbn [repeat]. change (1 :: repeat 1 n) with (repeat 1 (S n)).
    rewrite map_map, map_repeat. reflexivity.
Qed.

Lemma apply_repeat_explode : forall df : list (inventory_part Z),
  (forall r, In r df -> 0 <= ip_quantity r) ->
  exists repeated,
    apply_repeat df = Ok repeated /\
    map drop_quantity (explode repeated) = flat_map pieces_of df.
Proof.
  induction df as [|r df IH]; intros Hq.
  - exists []. split; reflexivity.
  - destruct IH as (repeated & Hrep & Hrows); [intros r' Hr'; apply Hq; now right|].
    assert (Hr : 0 <= ip_quantity r) by (apply Hq; now left).
    eexists. split.
    + cbn [apply_repeat]. rewrite (np_repeat_1_ok _ Hr), Hrep. cbn [bindR]. reflexivity.
    + unfold explode in *. cbn [flat_map]. rewrite map_app, Hrows.
      rewrite (explode_row_repeat r Hr). reflexivity.
Qed.



Lemma explode_inventory_parts_ok (df : list (inventory_part Z)) :
  (forall r, In r df -> 0 <= ip_quantity r) ->
  explode_inventory_parts df = Ok (flat_map pieces_of df).
Proof.
  intros Hq. destruct (apply_repeat_explode df Hq) as (repeated & Hrep & Hrows).
  unfold explode_inventory_parts. rewrite Hrep. cbn [bindR]. now rewrite Hrows.
Qed.


(** X14. When no quantity is negative the explosion returns, for every
    record in the order of the file, as many copies of the record without
    its quantity as the quantity says, and one copy for a quantity 0. *)
Theorem explode_makes_copies :
  forall df : list (inventory_part Z),
    (forall r, In r df -> 0 <= ip_quantity r) ->
    explode_inventory_parts df = Ok (flat_map pieces_of df) /\
    forall u, In u (flat_map pieces_of df) <->
              exists r, In r df /\ u = drop_quantity r.
Proof.
  intros df Hq. split; [exact (explode_inventory_parts_ok df Hq)|].
  intros u. rewrite in_flat_map. split.
  - intros (r & Hr & Hu). exists r. split; [exact Hr|].
    unfold pieces_of in Hu. now apply repeat_spec in Hu.
  - intros (r & Hr & ->). exists r. split; [exact Hr|].
    unfold pieces_of. destruct (Z.to_nat (Z.max (ip_quantity r) 1)) as [|n] eqn:Hn; [lia|].
    now left.
Qed.

Lemma explode_makes_copies_witness :
  explode_inventory_parts [three_bricks; no_plate; one_head]
  = Ok (flat_map pieces_of [three_bricks; no_plate; one_head]) /\
  forall u, In u (flat_map pieces_of [three_bricks; no_plate; one_head]) <->
            exists r, In r [three_bricks; no_plate; one_head] /\ u = drop_quantity r.
Proof.
  apply (explode_makes_copies [three_bricks; no_plate; one_head]).
  intros r [<- | [<- | [<- | []]]]; simpl; lia.
Defined.


End ExplodeRows.

(** ** The left merges *)

Module MergeRows.
Import Pandas Preprocess Spec Vocabulary PipelineFacts Examples.


Section UniqueKeys.
Context {L R K : Type} (eqb : K -> K -> bool).
Context (kl : L -> option K) (kr : R -> option K).
Hypothesis eqb_sound : forall x y, eqb x y = true -> x = y.



End UniqueKeys.

Lemma merge_left_length {L R K} (eqb : K -> K -> bool)
    (kl : L -> option K) (kr : R -> option K) (left : list L) (right : list R) :
  (length left <= length (merge_left eqb kl kr left right))%nat.
Proof.
  unfold merge_left. induction left as [|l left IH]; [simpl; lia|].
  cbn [flat_map]. rewrite length_app.
  destruct (filter (fun r => key_eqb eqb (kl l) (kr r)) right) as [|r ms].
  - cbn [length]. lia.
  - rewrite length_map. cbn [length]. lia.
Qed.





Lemma merge_tables_length (pieces : list unit_piece) (parts : list part)
    (part_categories : list part_category) (colors : list color) :
  (length pieces <= length (merge_tables pieces parts part_categories colors))%nat.
Proof.
  unfold merge_tables. rewrite length_map.
  etransitivity; [|apply merge_left_length].
  etransitivity; [|apply merge_left_length].
  apply merge_left_length.
Qed.



(** X17. Whatever the reference tables hold, a left merge drops no row:
    the merged frame has at least one row for every piece, and every piece
    has a row with its image. *)
Theorem merge_drops_no_piece :
  forall (pieces : list unit_piece) (parts : list part)
         (part_categories : list part_category) (colors : list color),
    (length pieces <= length (merge_tables pieces parts part_categories colors))%nat /\
    (forall u, In u pieces ->
       exists r, In r (merge_tables pieces parts part_categories colors) /\
                 img_url r = u_img_url u).
Proof.
  intros pieces parts part_categories colors.
  split; [apply merge_tables_length|].
  intros u Hu.
  destruct (merge_left_retains String.eqb u_part_num p_part_num pieces parts u Hu)
    as [p Hp].
  destruct (merge_left_retains Z.eqb (fun r => right_col p_part_cat_id (snd r)) pc_id
              _ part_categories (u, p) Hp) as [pc Hpc].
  destruct (merge_left_retains Z.eqb (fun r => u_color_id (fst (fst r))) c_id
              _ colors (u, p, pc) Hpc) as [c Hc].
  eexists. split.
  - unfold merge_tables. apply in_map_iff. exists (u, p, pc, c). split; [reflexivity|].
    exact Hc.
  - reflexivity.
Qed.

End MergeRows.

(** ** The filter, the final sample and the whole script *)

Module PileFacts.
Import Numpy Pandas Preprocess App Spec Vocabulary MoreExamples.
Import SamplingFacts MonadFacts RandomFacts TrialFacts PipelineFacts.
Import ExplodeRows MergeRows Examples.

Lemma filter_comm {A} (f g : A -> bool) (l : list A) :
  filter f (filter g l) = filter g (filter f l).
Proof.
  induction l as [|x l IH]; [reflexivity|]. cbn [filter].
  destruct (g x) eqn:Hg, (f x) eqn:Hf; cbn [filter]; rewrite ?Hg, ?Hf, IH; reflexivity.
Qed.

Lemma filter_idem {A} (f : A -> bool) (l : list A) :
  filter f (filter f l) = filter f l.
Proof.
  induction l as [|x l IH]; [reflexivity|]. cbn [filter].
  destruct (f x) eqn:Hf; cbn [filter]; rewrite ?Hf, IH; reflexivity.
Qed.

Lemma filter_fixed {A} (f : A -> bool) (l : list A) :
  (forall x, In x l -> f x = true) -> filter f l = l.
Proof.
  induction l as [|x l IH]; intros Hall; [reflexivity|]. cbn [filter].
  rewrite (Hall x (or_introl eq_refl)), IH; [reflexivity|].
  intros y Hy. apply Hall. now right.
Qed.

Lemma remove_non_lego_length (pile : list lego) :
  (length (remove_non_lego pile) <= length pile)%nat.
Proof.
  unfold remove_non_lego, remove_category.
  etransitivity; [apply filter_length_le|]. apply filter_length_le.
Qed.

(** X18. The filter works row by row and keeps the order; filtering twice
    changes nothing more; and it leaves a frame as it is exactly when the
    frame has no row of the two categories. *)
Theorem remove_non_lego_row_by_row :
  forall a b : list lego,
    remove_non_lego (a ++ b) = (remove_non_lego a ++ remove_non_lego b)%list /\
    remove_non_lego (remove_non_lego a) = remove_non_lego a /\
    remove_category "Other" (remove_category "Stickers" a) = remove_non_lego a /\
    (remove_non_lego a = a <-> forall r, In r a -> ~ excluded r) /\
    (length (remove_non_lego a) <= length a)%nat.
Proof.
  intros a b. split; [|split; [|split; [|split]]].
  - unfold remove_non_lego, remove_category. now rewrite !filter_app.
  - unfold remove_non_lego, remove_category.
    set (other := fun r => negb (cell_eqb (part_cat_name r) "Other")).
    set (stickers := fun r => negb (cell_eqb (part_cat_name r) "Stickers")).
    rewrite (filter_comm other stickers (filter other a)).
    now rewrite (filter_idem other a), filter_idem.
  - unfold remove_non_lego, remove_category. apply filter_comm.
  - split.
    + intros Hfix r Hr. rewrite <- Hfix in Hr. apply remove_non_lego_In in Hr. tauto.
    + intros Hall. unfold remove_non_lego.
      assert (Hother : remove_category "Other" a = a).
      { apply filter_fixed. intros r Hr.
        assert (Hin : In r (remove_category "Other" a)).
        { apply remove_category_In. split; [exact Hr|]. intros Hc.
          apply (Hall r Hr). now left. }
        apply filter_In in Hin. tauto. }
      rewrite Hother. apply filter_fixed. intros r Hr.
      assert (Hin : In r (remove_category "Stickers" a)).
      { apply remove_category_In. split; [exact Hr|]. intros Hc.
        apply (Hall r Hr). now right. }
      apply filter_In in Hin. tauto.
  - apply remove_non_lego_length.
Qed.









(** X22. The two programs together: on a working dataset the script has
    written, every row a successful trial returns is a row of that dataset,
    and none is of the category "Other" or "Stickers". *)
Theorem trial_on_built_pile :
  forall (size : Z) (inventory_parts : list (inventory_part Z)) (parts : list part)
         (part_categories : list part_category) (colors : list color)
         (g0 g1 : rng) (working : list lego)
         (shoe_size : Z) (g g' : rng) (s : step),
    main_sampling size inventory_parts parts part_categories colors g0
    = Ok (working, g1) ->
    get_legos_stepped_on true shoe_size working g = Ok (Some s, g') ->
    forall r, In r (legos_stepped_on s) -> In r working /\ ~ excluded r.
Proof.
  intros size inventory_parts parts part_categories colors g0 g1 working
         shoe_size g g' s Hmain Hrun r Hr.
  assert (Hin : In r working).
  { destruct (trial_inv _ _ _ _ _ Hrun)
      as (n & g2 & base & g3 & trophy & _ & Hb & Ht & Hs).
    injection Hs as ->. cbn [legos_stepped_on] in Hr.
    apply in_app_or in Hr. destruct Hr as [Hr|Hr].
    - apply sample_inv in Hb. destruct Hb as (_ & _ & Hd). exact (drawn_In _ _ Hd r Hr).
    - apply sample_inv in Ht. destruct Ht as (_ & _ & Hd).
      apply (drawn_In _ _ Hd) in Hr. apply filter_In in Hr. tauto. }
  split; [exact Hin|].
  apply main_sampling_inv in Hmain. destruct Hmain as (pieces & _ & _ & Hd).
  apply (drawn_In _ _ Hd) in Hin. apply remove_non_lego_In in Hin. tauto.
Qed.

Lemma trial_on_built_pile_witness :
  In head [brick; brick; brick; head] /\ ~ excluded head.
Proof.
  eapply (trial_on_built_pile 4 inventory_with_head parts_table categories_table
            colors_table (rng_of [0; 0; 0; 0]%nat) _ [brick; brick; brick; head]
            2 (rng_of [12; 0; 0; 0]%nat) _
            {| announced := 3; legos_stepped_on := [brick; brick; head] |}).
  - lazy. reflexivity.
  - lazy. reflexivity.
  - simpl. tauto.
Defined.

End PileFacts.

(** ** The foot model below size 2 *)

Module MirrorFacts.
Import Float App Spec Rounding RoundFacts FootFacts Examples.

Lemma SFopp_involutive (x : spec_float) : SFopp (SFopp x) = x.
Proof. destruct x as [s|s| |s m e]; cbn [SFopp]; rewrite ?negb_involutive; reflexivity. Qed.

(** The sign of a rounded result is the sign given. *)
Lemma binary_round_aux_opp (s : bool) (mx ex : Z) (lx : location) :
  binary_round_aux prec emax (negb s) mx ex lx
  = SFopp (binary_round_aux prec emax s mx ex lx).
Proof.
  unfold binary_round_aux.
  destruct (shr_fexp prec emax mx ex lx) as [mrs e'].
  destruct (shr_fexp prec emax
              (round_nearest_even (shr_m mrs) (loc_of_shr_record mrs)) e' loc_Exact)
    as [mrs' e''].
  destruct (shr_m mrs') as [|m|m]; [reflexivity| |reflexivity].
  destruct (e'' <=? emax - prec); reflexivity.
Qed.

Lemma mul_opp_l (x y : float) : mul (SFopp x) y = SFopp (mul x y).
Proof.
  unfold mul.
  destruct x as [sx|sx| |sx mx ex], y as [sy|sy| |sy my ey];
    cbn [SFopp SFmul]; rewrite <- ?negb_xorb_l; try reflexivity.
  apply binary_round_aux_opp.
Qed.

Lemma mul_opp_r (x y : float) : mul x (SFopp y) = SFopp (mul x y).
Proof.
  unfold mul.
  destruct x as [sx|sx| |sx mx ex], y as [sy|sy| |sy my ey];
    cbn [SFopp SFmul]; rewrite <- ?negb_xorb_r; try reflexivity.
  apply binary_round_aux_opp.
Qed.

Lemma round_int_opp (z : Z) : z <> 0 -> round_int (- z) = SFopp (round_int z).
Proof.
  intros Hz. unfold round_int, binary_normalize.
  destruct z as [|p|p]; [now elim Hz| |]; cbn [Z.opp]; unfold binary_round;
    destruct (shl_align p 0 (SpecFloat.fexp prec emax (Z.pos (digits2_pos p) + 0)))
      as [mz ez].
  - apply (binary_round_aux_opp false).
  - rewrite (binary_round_aux_opp false). now rewrite SFopp_involutive.
Qed.

Lemma of_int_opp (z : Z) :
  z <> 0 ->
  of_int (- z) = match of_int z with Ok x => Ok (SFopp x) | Raise e => Raise e end.
Proof.
  intros Hz. unfold of_int. rewrite (round_int_opp z Hz).
  destruct (round_int z) as [s|s| |s m e]; reflexivity.
Qed.

(** The area at the sizes [2 - d] and [2 + d]. *)
Lemma get_area_of_foot_mirror (d : Z) :
  get_area_of_foot (2 - d) = get_area_of_foot (2 + d).
Proof.
  destruct (Z.eq_dec d 0) as [->|Hd]; [reflexivity|].
  unfold get_area_of_foot.
  replace (2 - d - 2) with (- d) by lia. replace (2 + d - 2) with d by lia.
  rewrite (of_int_opp d Hd). destruct (of_int d) as [x|e]; [|reflexivity].
  cbn [bindR]. cbv zeta. f_equal.
  rewrite !mul_opp_r, mul_opp_l. now rewrite SFopp_involutive.
Qed.

Lemma get_area_of_foot_abs (s : Z) :
  get_area_of_foot s = get_area_of_foot (2 + Z.abs (s - 2)).
Proof.
  destruct (Z.le_gt_cases 2 s) as [Hge|Hlt].
  - f_equal. lia.
  - rewrite <- get_area_of_foot_mirror. f_equal. lia.
Qed.

(** X23. The area is the same at the sizes [4 - s] and [s], the two at the
    same distance from size 2.  So on every integer size whose distance
    from 2 converts to a float the function returns, and what it returns is
    zero, a positive float or positive infinity, never a negative number and
    never NaN; on the other sizes it raises [OverflowError]. *)
Theorem foot_area_mirror :
  forall s : Z,
    get_area_of_foot (4 - s) = get_area_of_foot s /\
    (Z.abs (s - 2) <= max_int ->
     exists a, get_area_of_foot s = Ok a /\ good a /\
               val2 a = area_val (Z.abs (s - 2))) /\
    (max_int < Z.abs (s - 2) ->
     get_area_of_foot s = Raise OverflowError_int_to_float).
Proof.
  intros s. split; [|split].
  - replace (4 - s) with (2 - (s - 2)) by lia.
    rewrite get_area_of_foot_mirror. f_equal. lia.
  - intros Hle. rewrite (get_area_of_foot_abs s).
    destruct (get_area_of_foot_ok (2 + Z.abs (s - 2)) ltac:(lia) ltac:(lia)) as [a Ha].
    exists a. split; [exact Ha|].
    destruct (get_area_of_foot_val (2 + Z.abs (s - 2)) a ltac:(lia) Ha) as [Hg Hv].
    split; [exact Hg|]. rewrite Hv. f_equal. lia.
  - intros Hgt. rewrite (get_area_of_foot_abs s).
    apply get_area_of_foot_overflow. lia.
Qed.

(** X24. Below size 2 the area does not increase with the size. *)
Theorem foot_area_antitone_below_2 :
  forall s1 s2 : Z,
    s1 <= s2 -> s2 <= 2 -> 2 - s1 <= max_int ->
    exists a1 a2,
      get_area_of_foot s1 = Ok a1 /\ get_area_of_foot s2 = Ok a2 /\
      Float.leb a2 a1 = true.
Proof.
  intros s1 s2 H12 H2 Hmax.
  rewrite (get_area_of_foot_abs s1), (get_area_of_foot_abs s2).
  destruct (get_area_of_foot_ok (2 + Z.abs (s1 - 2)) ltac:(lia) ltac:(lia)) as [a1 Ha1].
  destruct (get_area_of_foot_ok (2 + Z.abs (s2 - 2)) ltac:(lia) ltac:(lia)) as [a2 Ha2].
  exists a1, a2. split; [exact Ha1|]. split; [exact Ha2|].
  destruct (get_area_of_foot_val (2 + Z.abs (s1 - 2)) a1 ltac:(lia) Ha1) as [Hg1 Hv1].
  destruct (get_area_of_foot_val (2 + Z.abs (s2 - 2)) a2 ltac:(lia) Ha2) as [Hg2 Hv2].
  apply leb_of_val2; [exact Hg2 | exact Hg1 |].
  rewrite Hv1, Hv2. apply area_val_mono. lia.
Qed.

Lemma foot_area_antitone_below_2_witness :
  exists a1 a2,
    get_area_of_foot (-38) = Ok a1 /\ get_area_of_foot (-5) = Ok a2 /\
    Float.leb a2 a1 = true.
Proof.
  apply foot_area_antitone_below_2; try lia. vm_compute. discriminate.
Defined.

End MirrorFacts.
